(** * mattermost-poll: the poll ledger of [poll.py]

    A shallow embedding of the [Poll] class of [poll.py] and of the three
    SQLite tables it works on, followed by the properties of the vote state
    machine: toggle semantics, the [max_votes] ceiling, finalisation, the
    construction errors and the consistency of the tally queries.

    The database is shared by every [Poll] object (each object opens its own
    connection to the same file), so it is modelled as an explicit store that
    every method reads and writes.  Calls are sequential: one method runs to
    its [commit] before the next starts.

    Python integers are [Z].  An integer the caller passes to [load],
    [count_votes] or [voters] is bound as a parameter of a statement, and
    the sqlite3 module raises [OverflowError] when it does not fit
    SQLite's 64-bit INTEGER.  [self.id] was bound by [__init__], and
    [vote] checks its index against [vote_options] before any statement.
    [Poll_load] carries the outcome of [sqlite3.connect]; [load] and
    [create] are the calls on a database file that opens.
    Voters are strings, compared as the [text] column compares them.
    A query returns its rows in table
    order; the store leaves that order open, and no theorem below depends
    on it beyond what it states. *)

From Stdlib Require Import String ZArith List Bool Lia Permutation Arith.
Import ListNotations.
Open Scope Z_scope.

(** ** Exceptions and results *)

(** The exceptions the methods can end in.  [sqlite3_Error] stands for the
    [sqlite3.Error] family (a statement on a table that does not exist, a
    database file that cannot be opened); [TypeError] is what
    [cur.fetchone()[0]] raises on [None]; [OverflowError] is what the
    sqlite3 module raises for an integer parameter that does not fit
    SQLite's 64-bit INTEGER, and it is no [sqlite3.Error]. *)
Inductive exn : Type :=
| InvalidPollError
| NoMoreVotesError
| IndexError
| TypeError
| sqlite3_Error
| OverflowError.

Inductive result (A : Type) : Type :=
| Ok (a : A)
| Raise (e : exn).
Arguments Ok {A} a.
Arguments Raise {A} e.

(** ** The tables *)

(** One record per table, with the columns of the [CREATE TABLE] statements
    of [Poll.create].  [finished] is an integer column (0 or 1). *)
Module Polls.
Record row : Type := mk {
  poll_id : Z;
  creator : string;
  message : string;
  finished : Z;
  secret : bool;
  public : bool;
  max_votes : Z }.
End Polls.

Module VoteOptions.
Record row : Type := mk {
  poll_id : Z;
  number : Z;
  name : string }.
End VoteOptions.

Module Votes.
Record row : Type := mk {
  poll_id : Z;
  voter : string;
  vote : Z }.

(** Equality of two rows on the columns of the [single_vote] constraint. *)
Definition eqb (a b : row) : bool :=
  (poll_id a =? poll_id b) && String.eqb (voter a) (voter b)
  && (vote a =? vote b).
End Votes.

(** The rows of a table are kept in insertion (rowid) order. *)
Record Tables : Type := mkTables {
  tPolls : list Polls.row;
  tVoteOptions : list VoteOptions.row;
  tVotes : list Votes.row }.

(** A database file: [None] before the first [CREATE TABLE], when every
    statement on the tables fails with an [sqlite3.Error]. *)
Definition DB : Type := option Tables.

(** ** A state and exception monad over the store *)

Definition M (A : Type) : Type := DB -> result A * DB.

Definition ret {A} (a : A) : M A := fun db => (Ok a, db).

Definition raise {A} (e : exn) : M A := fun db => (Raise e, db).

Definition bind {A B} (m : M A) (k : A -> M B) : M B :=
  fun db =>
    match m db with
    | (Ok a, db') => k a db'
    | (Raise e, db') => (Raise e, db')
    end.

Notation "x <- m ;; k" := (bind m (fun x => k))
  (at level 61, m at next level, right associativity).
Notation "m ;;; k" := (bind m (fun _ => k))
  (at level 61, right associativity).

(** [try: ... except sqlite3.Error as e: raise h from e]. *)
Definition try_except_sqlite3 {A} (body : M A) (h : exn) : M A :=
  fun db =>
    match body db with
    | (Raise sqlite3_Error, db') => (Raise h, db')
    | r => r
    end.

(** A [SELECT]: fails when the tables do not exist. *)
Definition select {A} (q : Tables -> A) : M A :=
  fun db =>
    match db with
    | Some t => (Ok (q t), db)
    | None => (Raise sqlite3_Error, db)
    end.

(** SQLite's INTEGER: a signed 64-bit integer. *)
Definition sqlite_int (z : Z) : bool := (- 2 ^ 63 <=? z) && (z <? 2 ^ 63).

(** A [SELECT] with an integer parameter that comes from the caller.  The
    statement is prepared first, which fails when the tables do not exist;
    then the parameter is bound, and the sqlite3 module raises
    [OverflowError] when it does not bind.  [binds] says whether it does. *)
Definition select_int {A} (binds : Tables -> bool) (q : Tables -> A) : M A :=
  fun db =>
    match db with
    | Some t =>
        if binds t then (Ok (q t), db) else (Raise OverflowError, db)
    | None => (Raise sqlite3_Error, db)
    end.

(** An [INSERT], [DELETE] or [UPDATE] (followed by its commit). *)
Definition execute (f : Tables -> Tables) : M unit :=
  fun db =>
    match db with
    | Some t => (Ok tt, Some (f t))
    | None => (Raise sqlite3_Error, db)
    end.

(** The three [CREATE TABLE IF NOT EXISTS] statements of [create]. *)
Definition create_tables : M unit :=
  fun db =>
    match db with
    | Some t => (Ok tt, Some t)
    | None => (Ok tt, Some (mkTables [] [] []))
    end.

(** ** The statements of [poll.py] on the tables *)

(** [SELECT name FROM VoteOptions WHERE poll_id=? ORDER BY number ASC]:
    the matching rows, stably sorted by [number]. *)
Fixpoint insert_by_number (o : VoteOptions.row) (l : list VoteOptions.row)
  : list VoteOptions.row :=
  match l with
  | [] => [o]
  | x :: l' =>
      if VoteOptions.number o <=? VoteOptions.number x then o :: x :: l'
      else x :: insert_by_number o l'
  end.

Fixpoint order_by_number (l : list VoteOptions.row) : list VoteOptions.row :=
  match l with
  | [] => []
  | o :: l' => insert_by_number o (order_by_number l')
  end.

Definition select_option_names (poll : Z) (t : Tables) : list string :=
  map VoteOptions.name
    (order_by_number
       (filter (fun o => VoteOptions.poll_id o =? poll) (tVoteOptions t))).

(** [SELECT ... FROM Polls WHERE poll_id=?] followed by [fetchone()]. *)
Definition select_poll (poll : Z) (t : Tables) : option Polls.row :=
  find (fun r => Polls.poll_id r =? poll) (tPolls t).

(** [SELECT * FROM Votes WHERE poll_id=?]. *)
Definition select_votes (poll : Z) (t : Tables) : list Votes.row :=
  filter (fun r => Votes.poll_id r =? poll) (tVotes t).

(** [SELECT * FROM Votes WHERE poll_id=? AND vote=?]. *)
Definition select_votes_for (poll vote_id : Z) (t : Tables) : list Votes.row :=
  filter (fun r => (Votes.poll_id r =? poll) && (Votes.vote r =? vote_id))
    (tVotes t).

(** [SELECT vote FROM Votes WHERE poll_id=? AND voter=?] (the rows). *)
Definition select_votes_of (poll : Z) (user : string) (t : Tables)
  : list Votes.row :=
  filter (fun r => (Votes.poll_id r =? poll) && String.eqb (Votes.voter r) user)
    (tVotes t).

(** [SELECT COUNT(vote) FROM Votes WHERE poll_id=? GROUP BY voter]: one
    result row [(voter, count)] per distinct voter of the poll. *)
Fixpoint count_into (user : string) (groups : list (string * nat))
  : list (string * nat) :=
  match groups with
  | [] => [(user, 1%nat)]
  | (u, c) :: g =>
      if String.eqb u user then (u, S c) :: g else (u, c) :: count_into user g
  end.

Fixpoint group_by_voter (rows : list Votes.row) : list (string * nat) :=
  match rows with
  | [] => []
  | r :: rows' => count_into (Votes.voter r) (group_by_voter rows')
  end.

(** [DELETE FROM Votes WHERE poll_id=? AND voter=? AND vote=?]. *)
Definition delete_vote (poll : Z) (user : string) (vote_id : Z) (t : Tables)
  : Tables :=
  mkTables (tPolls t) (tVoteOptions t)
    (filter (fun r => negb (Votes.eqb r (Votes.mk poll user vote_id)))
       (tVotes t)).

(** [DELETE FROM Votes WHERE poll_id=? AND voter=?]. *)
Definition delete_votes_of (poll : Z) (user : string) (t : Tables) : Tables :=
  mkTables (tPolls t) (tVoteOptions t)
    (filter
       (fun r =>
          negb ((Votes.poll_id r =? poll) && String.eqb (Votes.voter r) user))
       (tVotes t)).

(** [INSERT INTO Votes (poll_id, voter, vote) VALUES (?, ?, ?)] under
    [UNIQUE (poll_id, voter, vote) ON CONFLICT REPLACE]: a row with the same
    triple is removed, then the new row is added. *)
Definition insert_vote (poll : Z) (user : string) (vote_id : Z) (t : Tables)
  : Tables :=
  let r := Votes.mk poll user vote_id in
  mkTables (tPolls t) (tVoteOptions t)
    (filter (fun x => negb (Votes.eqb x r)) (tVotes t) ++ [r]).

(** [UPDATE Polls SET finished=1 WHERE poll_id=?]. *)
Definition set_finished (r : Polls.row) : Polls.row :=
  Polls.mk (Polls.poll_id r) (Polls.creator r) (Polls.message r) 1
    (Polls.secret r) (Polls.public r) (Polls.max_votes r).

Definition update_finished (poll : Z) (t : Tables) : Tables :=
  mkTables
    (map (fun r => if Polls.poll_id r =? poll then set_finished r else r)
       (tPolls t))
    (tVoteOptions t) (tVotes t).

(** The rowid SQLite gives to a row inserted into [Polls] without a
    [poll_id]: 1 in an empty table, otherwise one more than the largest. *)
Definition next_rowid (rows : list Polls.row) : Z :=
  match rows with
  | [] => 1
  | r :: rows' =>
      1 + fold_left Z.max (map Polls.poll_id rows') (Polls.poll_id r)
  end.

(** [INSERT INTO Polls (...) VALUES (?, ?, ?, ?, ?, ?)]; the result is
    [cur.lastrowid]. *)
Definition insert_poll (creator message : string) (finished : Z)
    (secret public : bool) (max_votes : Z) : M Z :=
  rows <- select tPolls ;;
  let rowid := next_rowid rows in
  execute (fun t =>
    mkTables
      (tPolls t ++
         [Polls.mk rowid creator message finished secret public max_votes])
      (tVoteOptions t) (tVotes t)) ;;;
  ret rowid.

(** [INSERT INTO VoteOptions (poll_id, name, number) VALUES (?, ?, ?)]. *)
Definition insert_option (poll : Z) (name : string) (number : Z) : M unit :=
  execute (fun t =>
    mkTables (tPolls t)
      (tVoteOptions t ++ [VoteOptions.mk poll number name]) (tVotes t)).

(** ** The [Poll] class *)

(** The attributes [__init__] loads into the object.  They are a copy of
    the rows; [finished] and the votes are never cached. *)
Record Poll : Type := mkPoll {
  id : Z;
  creator_id : string;
  message : string;
  vote_options : list string;
  secret : bool;
  public : bool;
  max_votes : Z }.

(** Whether [id] binds as the [poll_id] parameter of a statement: a 64-bit
    integer does.  The model puts no bound on the number of rows of a
    table, so the rowid of a row of [Polls] is taken to bind as well; in a
    table that fits in a database it is a 64-bit integer anyway. *)
Definition binds_id (id : Z) (t : Tables) : bool :=
  sqlite_int id || existsb (fun r => Polls.poll_id r =? id) (tPolls t).

(** Whether [vote_id] binds as the [vote] parameter of a statement: a
    64-bit integer does.  The model puts no bound on the length of
    [vote_options], so an index of one of the options of the poll is taken
    to bind as well; for a poll that fits in a database it is a 64-bit
    integer anyway. *)
Definition binds_vote (self : Poll) (vote_id : Z) : bool :=
  sqlite_int vote_id
  || ((0 <=? vote_id) && (vote_id <? Z.of_nat (length (vote_options self)))).

(** [Poll.__init__(connection, id)].  [OverflowError] is not caught by
    [except sqlite3.Error]. *)
Definition init (id : Z) : M Poll :=
  try_except_sqlite3
    (vote_options <- select_int (binds_id id) (select_option_names id) ;;
     match vote_options with
     | [] => raise InvalidPollError
     | _ :: _ =>
         row <- select (select_poll id) ;;
         match row with
         | None => raise InvalidPollError
         | Some row =>
             ret (mkPoll id (Polls.creator row) (Polls.message row)
                    vote_options (Polls.secret row) (Polls.public row)
                    (Polls.max_votes row))
         end
     end)
    InvalidPollError.

(** [for number, name in enumerate(vote_options): INSERT ...]. *)
Fixpoint insert_options (poll : Z) (number : Z) (names : list string)
  : M unit :=
  match names with
  | [] => ret tt
  | name :: names' =>
      insert_option poll name number ;;;
      insert_options poll (number + 1) names'
  end.

(** [Poll.create(creator_id, message, vote_options, secret, public,
    max_votes)]. *)
Definition create (creator_id message : string) (vote_options : list string)
    (secret public : bool) (max_votes : Z) : M Poll :=
  create_tables ;;;
  let vote_options :=
    match vote_options with
    | [] => ["Yes"%string; "No"%string]
    | _ :: _ => vote_options
    end in
  let max_votes :=
    Z.max 1 (Z.min max_votes (Z.of_nat (length vote_options))) in
  id <- insert_poll creator_id message 0 secret public max_votes ;;
  insert_options id 0 vote_options ;;;
  init id.

(** [sqlite3.connect(settings.DATABASE)].  Whether the file can be opened
    is not a matter of the tables: [opens] says whether it can. *)
Definition connect (opens : bool) : M unit :=
  if opens then ret tt else raise sqlite3_Error.

(** [Poll.load(id)]: the connection is opened outside the [try] of
    [__init__]. *)
Definition Poll_load (opens : bool) (id : Z) : M Poll :=
  connect opens ;;;
  init id.

(** [Poll.load(id)] on a database file that opens: [Poll_load true id]. *)
Definition load (id : Z) : M Poll := init id.

(** [Poll.num_votes()]. *)
Definition num_votes (self : Poll) : M nat :=
  rows <- select (select_votes (id self)) ;;
  ret (length rows).

(** [Poll.num_voters()]. *)
Definition num_voters (self : Poll) : M nat :=
  rows <- select (fun t => group_by_voter (select_votes (id self) t)) ;;
  ret (length rows).

(** [Poll.count_votes(vote_id)]. *)
Definition count_votes (self : Poll) (vote_id : Z) : M nat :=
  rows <- select_int (fun _ => binds_vote self vote_id)
            (select_votes_for (id self) vote_id) ;;
  ret (length rows).

(** [Poll.voters(vote_id)]. *)
Definition voters (self : Poll) (vote_id : Z) : M (list string) :=
  rows <- select_int (fun _ => binds_vote self vote_id)
            (select_votes_for (id self) vote_id) ;;
  ret (map Votes.voter rows).

(** [Poll.votes(user_id)]. *)
Definition votes (self : Poll) (user_id : string) : M (list Z) :=
  rows <- select (select_votes_of (id self) user_id) ;;
  ret (map Votes.vote rows).

(** [Poll.is_finished()]. *)
Definition is_finished (self : Poll) : M bool :=
  row <- select (select_poll (id self)) ;;
  match row with
  | None => raise TypeError
  | Some row => ret (Polls.finished row =? 1)
  end.

(** [Poll.vote(user_id, vote_id)]. *)
Definition vote (self : Poll) (user_id : string) (vote_id : Z) : M unit :=
  fin <- is_finished self ;;
  if fin then ret tt
  else if (vote_id <? 0) || (vote_id >=? Z.of_nat (length (vote_options self)))
  then raise IndexError
  else
    votes_ <- votes self user_id ;;
    if existsb (Z.eqb vote_id) votes_ then
      execute (delete_vote (id self) user_id vote_id)
    else
      (if Z.of_nat (length votes_) >=? max_votes self then
         if max_votes self =? 1 then
           execute (delete_votes_of (id self) user_id)
         else raise NoMoreVotesError
       else ret tt) ;;;
      execute (insert_vote (id self) user_id vote_id).

(** [Poll.end()]. *)
Definition end_ (self : Poll) : M unit :=
  execute (update_finished (id self)).

(** ** Running a method *)

Definition eval {A} (m : M A) (db : DB) : result A := fst (m db).
Definition exec {A} (m : M A) (db : DB) : DB := snd (m db).

(** ** The system: one database file and the [Poll] objects in use *)

Record World : Type := mkWorld {
  store : DB;
  live : list Poll }.

(** A fresh database file and no object. *)
Definition init_world : World := mkWorld None [].

(** The object a constructor call hands out, if it returns. *)
Definition objects (r : result Poll) : list Poll :=
  match r with
  | Ok p => [p]
  | Raise _ => []
  end.

(** One call of [create], [load], [vote] or [end].  [create] and [load]
    hand out an object when they return; [vote] and [end] are methods of an
    object handed out before. *)
Inductive step : World -> World -> Prop :=
| step_create : forall w creator_id message vote_options secret public
                        max_votes,
    let m :=
      create creator_id message vote_options secret public max_votes in
    step w (mkWorld (exec m (store w)) (objects (eval m (store w)) ++ live w))
| step_load : forall w i,
    step w (mkWorld (exec (load i) (store w))
              (objects (eval (load i) (store w)) ++ live w))
| step_vote : forall w self user_id vote_id,
    In self (live w) ->
    step w (mkWorld (exec (vote self user_id vote_id) (store w)) (live w))
| step_end : forall w self,
    In self (live w) ->
    step w (mkWorld (exec (end_ self) (store w)) (live w)).

(** Any number of calls. *)
Inductive steps : World -> World -> Prop :=
| steps_refl : forall w, steps w w
| steps_step : forall w1 w2 w3, steps w1 w2 -> step w2 w3 -> steps w1 w3.

(** The worlds the program can be in, starting on a fresh database. *)
Definition reachable (w : World) : Prop := steps init_world w.

(** ** Schema invariants *)

(** The [VoteOptions] rows of a poll. *)
Definition option_rows (poll : Z) (t : Tables) : list VoteOptions.row :=
  filter (fun o => VoteOptions.poll_id o =? poll) (tVoteOptions t).

(** What the constraints of the schema and the checks of [vote] keep true
    of the tables. *)
Record wf (t : Tables) : Prop := mk_wf {
  wf_key : NoDup (map Polls.poll_id (tPolls t));
  wf_options_fk : forall o, In o (tVoteOptions t) ->
      In (VoteOptions.poll_id o) (map Polls.poll_id (tPolls t));
  wf_votes_fk : forall v, In v (tVotes t) ->
      In (Votes.poll_id v) (map Polls.poll_id (tPolls t));
  wf_unique : NoDup (tVotes t);
  wf_range : forall v, In v (tVotes t) ->
      0 <= Votes.vote v
           < Z.of_nat (length (option_rows (Votes.poll_id v) t));
  wf_ceiling : forall r u, In r (tPolls t) ->
      Z.of_nat (length (select_votes_of (Polls.poll_id r) u t))
      <= Polls.max_votes r }.

(** [__init__] as a function of the tables. *)
Definition init_tables (i : Z) (t : Tables) : result Poll :=
  if binds_id i t then
    match select_option_names i t with
    | [] => Raise InvalidPollError
    | _ :: _ =>
        match select_poll i t with
        | None => Raise InvalidPollError
        | Some row =>
            Ok (mkPoll i (Polls.creator row) (Polls.message row)
                  (select_option_names i t) (Polls.secret row)
                  (Polls.public row) (Polls.max_votes row))
        end
    end
  else Raise OverflowError.

(** An object is current when loading its id again gives the same object. *)
Definition current (t : Tables) (p : Poll) : Prop :=
  init_tables (id p) t = Ok p.

(** The invariant of the system: the tables are well formed and every
    object in use is current. *)
Definition inv (w : World) : Prop :=
  match store w with
  | None => live w = []
  | Some t => wf t /\ forall p, In p (live w) -> current t p
  end.

(** [vote] as a function of the tables. *)
Definition vote_tables (p : Poll) (u : string) (v : Z) (t : Tables)
  : result unit * Tables :=
  match select_poll (id p) t with
  | None => (Raise TypeError, t)
  | Some row =>
      if Polls.finished row =? 1 then (Ok tt, t)
      else if (v <? 0) || (v >=? Z.of_nat (length (vote_options p)))
      then (Raise IndexError, t)
      else
        let votes_ := map Votes.vote (select_votes_of (id p) u t) in
        if existsb (Z.eqb v) votes_ then (Ok tt, delete_vote (id p) u v t)
        else if Z.of_nat (length votes_) >=? max_votes p then
          if max_votes p =? 1
          then (Ok tt, insert_vote (id p) u v (delete_votes_of (id p) u t))
          else (Raise NoMoreVotesError, t)
        else (Ok tt, insert_vote (id p) u v t)
  end.

(** The rows [enumerate(vote_options)] inserts into [VoteOptions]. *)
Fixpoint numbered_options (poll : Z) (number : Z) (names : list string)
  : list VoteOptions.row :=
  match names with
  | [] => []
  | name :: names' =>
      VoteOptions.mk poll number name
      :: numbered_options poll (number + 1) names'
  end.

(** [if not vote_options: vote_options = ['Yes', 'No']]. *)
Definition default_options (vote_options : list string) : list string :=
  match vote_options with
  | [] => ["Yes"%string; "No"%string]
  | _ :: _ => vote_options
  end.

(** [max(1, min(max_votes, len(vote_options)))]. *)
Definition clamp_votes (max_votes : Z) (vote_options : list string) : Z :=
  Z.max 1 (Z.min max_votes (Z.of_nat (length vote_options))).

(** The tables after [CREATE TABLE IF NOT EXISTS]. *)
Definition existing (db : DB) : Tables :=
  match db with
  | Some t => t
  | None => mkTables [] [] []
  end.

(** The tables [create] leaves behind: one more [Polls] row and one
    [VoteOptions] row per option, numbered from 0. *)
Definition create_tables_of (creator_id message : string)
    (vote_options : list string) (secret public : bool) (max_votes : Z)
    (t : Tables) : Tables :=
  let rowid := next_rowid (tPolls t) in
  mkTables
    (tPolls t ++
       [Polls.mk rowid creator_id message 0 secret public
          (clamp_votes max_votes (default_options vote_options))])
    (tVoteOptions t ++
       numbered_options rowid 0 (default_options vote_options))
    (tVotes t).

(** [n] calls of [vote(user_id, vote_id)] in a row. *)
Fixpoint casts (self : Poll) (user_id : string) (vote_id : Z) (n : nat)
  : M unit :=
  match n with
  | O => ret tt
  | S n' => vote self user_id vote_id ;;; casts self user_id vote_id n'
  end.

(** The options a voter holds, read off the tables as [votes] does. *)
Definition held (p : Poll) (u : string) (t : Tables) : list Z :=
  map Votes.vote (select_votes_of (id p) u t).

(** The poll has its row and the row is not finished. *)
Definition unfinished (p : Poll) (t : Tables) : Prop :=
  exists row,
    select_poll (id p) t = Some row /\ (Polls.finished row =? 1) = false.

(** [0 <= vote_id < len(self.vote_options)]. *)
Definition valid_option (p : Poll) (x : Z) : Prop :=
  0 <= x < Z.of_nat (length (vote_options p)).

(** The states of one voter and one option during repeated casts: the
    option is not held and a vote is left, or it is held (once). *)
Definition can_cast (p : Poll) (u : string) (x : Z) (t : Tables) : Prop :=
  unfinished p t /\ ~ In x (held p u t)
  /\ Z.of_nat (length (held p u t)) < max_votes p.

Definition has_cast (p : Poll) (u : string) (x : Z) (t : Tables) : Prop :=
  unfinished p t
  /\ exists others, held p u t = others ++ [x] /\ ~ In x others
       /\ Z.of_nat (length others) < max_votes p.

(** The poll has its row and the row is finished. *)
Definition finished_at (p : Poll) (db : DB) : Prop :=
  exists t row,
    db = Some t /\ select_poll (id p) t = Some row /\ Polls.finished row = 1.

(** [sum(self.count_votes(i) for i in range(n))]. *)
Fixpoint sum_counts (self : Poll) (n : nat) : M nat :=
  match n with
  | O => ret 0%nat
  | S k =>
      c <- count_votes self (Z.of_nat k) ;;
      s <- sum_counts self k ;;
      ret (c + s)%nat
  end.

(** The records of a poll for the options below [n]. *)
Definition votes_below (poll : Z) (n : nat) (t : Tables) : list Votes.row :=
  filter
    (fun r =>
       (Votes.poll_id r =? poll)
       && ((0 <=? Votes.vote r) && (Votes.vote r <? Z.of_nat n)))
    (tVotes t).

(** ** Concrete polls *)

(** A poll with three options and two votes per voter. *)
Definition lunch : M Poll :=
  create "alice" "Lunch?" ["Pizza"; "Sushi"; "Salad"]%string false true 2.

Definition lunch_poll : Poll :=
  mkPoll 1 "alice" "Lunch?" ["Pizza"; "Sushi"; "Salad"]%string false true 2.

(** The world after [lunch] on a fresh database. *)
Definition w_lunch : World :=
  mkWorld (exec lunch (store init_world))
    (objects (eval lunch (store init_world)) ++ live init_world).

(** ... after bob voted for Sushi (option 1). *)
Definition w_bob1 : World :=
  mkWorld (exec (vote lunch_poll "bob" 1) (store w_lunch)) (live w_lunch).

(** ... and for Salad (option 2): both votes of bob are used. *)
Definition w_bob12 : World :=
  mkWorld (exec (vote lunch_poll "bob" 2) (store w_bob1)) (live w_bob1).

(** ... and after the poll was ended. *)
Definition w_ended : World :=
  mkWorld (exec (end_ lunch_poll) (store w_bob12)) (live w_bob12).

(** A single-choice poll on its own database. *)
Definition yesno : M Poll := create "carol" "Ship it?" [] false false 1.

Definition yesno_poll : Poll :=
  mkPoll 1 "carol" "Ship it?" ["Yes"; "No"]%string false false 1.

Definition w_yesno : World :=
  mkWorld (exec yesno (store init_world))
    (objects (eval yesno (store init_world)) ++ live init_world).

Definition w_dave0 : World :=
  mkWorld (exec (vote yesno_poll "dave" 0) (store w_yesno)) (live w_yesno).

(** ** Further invariants and composed calls *)

(** The number of rows of [Polls]: the polls created so far. *)
Definition polls_count (db : DB) : nat := length (tPolls (existing db)).

(** What [create] keeps true of [Polls]: the rowids are 1, 2, ..., and the
    clamped [max_votes] of a row lies between 1 and the number of option
    rows of its poll. *)
Record wf_polls (t : Tables) : Prop := mk_wf_polls {
  wf_ids :
    map Polls.poll_id (tPolls t)
    = map Z.of_nat (seq 1 (length (tPolls t)));
  wf_max_votes : forall r, In r (tPolls t) ->
      1 <= Polls.max_votes r
        <= Z.of_nat (length (option_rows (Polls.poll_id r) t)) }.

(** [self.vote(user_id, a); self.vote(user_id, b)]. *)
Definition vote_then_vote (self : Poll) (user_id : string) (a b : Z)
  : M unit :=
  vote self user_id a ;;; vote self user_id b.

(** The world after a second poll was created beside the lunch poll. *)
Definition w_two : World :=
  mkWorld (exec yesno (store w_bob12))
    (objects (eval yesno (store w_bob12)) ++ live w_bob12).

Definition yesno2_poll : Poll :=
  mkPoll 2 "carol" "Ship it?" ["Yes"; "No"]%string false false 1.

(** [len(self.votes(user_id))], and 0 when the query fails. *)
Definition votes_held (self : Poll) (user_id : string) (db : DB) : nat :=
  match eval (votes self user_id) db with
  | Ok hs => length hs
  | Raise _ => 0%nat
  end.
(** ** The methods on existing tables *)

Lemma init_Some (i : Z) (t : Tables) :
  init i (Some t) = (init_tables i t, Some t).
Proof.
  unfold init, init_tables, try_except_sqlite3, bind, select_int, select,
    raise, ret.
  destruct (binds_id i t); [|reflexivity].
  destruct (select_option_names i t); [reflexivity|].
  destruct (select_poll i t); reflexivity.
Qed.

Lemma init_None (i : Z) : init i None = (Raise InvalidPollError, None).
Proof. reflexivity. Qed.

Lemma is_finished_Some (p : Poll) (t : Tables) :
  is_finished p (Some t)
  = (match select_poll (id p) t with
     | None => Raise TypeError
     | Some row => Ok (Polls.finished row =? 1)
     end, Some t).
Proof.
  unfold is_finished, bind, select, raise, ret.
  destruct (select_poll (id p) t); reflexivity.
Qed.

Lemma votes_Some (p : Poll) (u : string) (t : Tables) :
  votes p u (Some t)
  = (Ok (map Votes.vote (select_votes_of (id p) u t)), Some t).
Proof. reflexivity. Qed.

Lemma vote_Some (p : Poll) (u : string) (v : Z) (t : Tables) :
  vote p u v (Some t)
  = (fst (vote_tables p u v t), Some (snd (vote_tables p u v t))).
Proof.
  unfold vote, vote_tables.
  unfold bind at 1. rewrite is_finished_Some.
  destruct (select_poll (id p) t) as [row|]; [|reflexivity].
  destruct (Polls.finished row =? 1); [reflexivity|].
  destruct ((v <? 0) || (v >=? Z.of_nat (length (vote_options p))));
    [reflexivity|].
  unfold bind at 1. rewrite votes_Some.
  destruct (existsb (Z.eqb v) (map Votes.vote (select_votes_of (id p) u t)));
    [reflexivity|].
  unfold bind, execute, raise, ret.
  destruct (Z.of_nat (length (map Votes.vote (select_votes_of (id p) u t)))
            >=? max_votes p); [|reflexivity].
  destruct (max_votes p =? 1); reflexivity.
Qed.

Lemma vote_None (p : Poll) (u : string) (v : Z) :
  vote p u v None = (Raise sqlite3_Error, None).
Proof. reflexivity. Qed.


Lemma binds_vote_valid p x : valid_option p x -> binds_vote p x = true.
Proof.
  intros [H1 H2]. unfold binds_vote. apply orb_true_iff. right.
  apply andb_true_iff. split; [now apply Z.leb_le | now apply Z.ltb_lt].
Qed.

Lemma binds_vote_sqlite_int p x : sqlite_int x = true -> binds_vote p x = true.
Proof. intros H. unfold binds_vote. now rewrite H. Qed.


Lemma count_votes_Some p x t :
  count_votes p x (Some t)
  = (if binds_vote p x then Ok (length (select_votes_for (id p) x t))
     else Raise OverflowError, Some t).
Proof.
  unfold count_votes, bind, select_int, ret.
  destruct (binds_vote p x); reflexivity.
Qed.

Lemma voters_Some p x t :
  voters p x (Some t)
  = (if binds_vote p x
     then Ok (map Votes.voter (select_votes_for (id p) x t))
     else Raise OverflowError, Some t).
Proof.
  unfold voters, bind, select_int, ret.
  destruct (binds_vote p x); reflexivity.
Qed.

(** For a poll and a table that fit in a database, the integers that bind
    are the 64-bit integers and no others. *)
Lemma binds_vote_fits p x :
  Z.of_nat (length (vote_options p)) <= 2 ^ 63 ->
  binds_vote p x = sqlite_int x.
Proof.
  intros H. unfold binds_vote, sqlite_int.
  destruct (Z.leb_spec (- 2 ^ 63) x), (Z.ltb_spec x (2 ^ 63)),
    (Z.leb_spec 0 x), (Z.ltb_spec x (Z.of_nat (length (vote_options p))));
    simpl; try reflexivity; lia.
Qed.

Lemma binds_id_fits i t :
  (forall r, In r (tPolls t) -> sqlite_int (Polls.poll_id r) = true) ->
  binds_id i t = sqlite_int i.
Proof.
  intros H. unfold binds_id. destruct (sqlite_int i) eqn:E; [reflexivity|].
  simpl. destruct (existsb _ (tPolls t)) eqn:X; [|reflexivity].
  apply existsb_exists in X as (r & Hr & Er). apply Z.eqb_eq in Er.
  rewrite <- Er, (H r Hr) in E. discriminate.
Qed.
(** ** Lists, rows and keys *)

Lemma Votes_eqb_eq (a b : Votes.row) : Votes.eqb a b = true <-> a = b.
Proof.
  destruct a as [p u v], b as [p' u' v']; unfold Votes.eqb; simpl.
  rewrite !andb_true_iff, !Z.eqb_eq, String.eqb_eq.
  split; [intros [[-> ->] ->]; reflexivity | intros H; inversion H; auto].
Qed.

Lemma Votes_eqb_neq (a b : Votes.row) : Votes.eqb a b = false <-> a <> b.
Proof.
  rewrite <- Votes_eqb_eq. destruct (Votes.eqb a b); split; congruence.
Qed.

Lemma length_insert_by_number o l :
  length (insert_by_number o l) = S (length l).
Proof.
  induction l as [|x l IH]; simpl; [reflexivity|].
  destruct (VoteOptions.number o <=? VoteOptions.number x); simpl; congruence.
Qed.

Lemma length_order_by_number l : length (order_by_number l) = length l.
Proof.
  induction l as [|x l IH]; simpl; [reflexivity|].
  rewrite length_insert_by_number; congruence.
Qed.

Lemma length_select_option_names i t :
  length (select_option_names i t) = length (option_rows i t).
Proof.
  unfold select_option_names, option_rows.
  now rewrite length_map, length_order_by_number.
Qed.

Lemma find_In_key (i : Z) (rows : list Polls.row) (r : Polls.row) :
  find (fun r => Polls.poll_id r =? i) rows = Some r ->
  In r rows /\ Polls.poll_id r = i.
Proof.
  intros H. apply find_some in H. now rewrite Z.eqb_eq in H.
Qed.

Lemma key_unique (rows : list Polls.row) (r r' : Polls.row) :
  NoDup (map Polls.poll_id rows) ->
  In r rows -> In r' rows -> Polls.poll_id r = Polls.poll_id r' -> r = r'.
Proof.
  induction rows as [|x rows IH]; simpl; [tauto|].
  intros ND Hr Hr' E. apply NoDup_cons_iff in ND as [Hx ND].
  destruct Hr as [->|Hr], Hr' as [->|Hr']; auto.
  - exfalso. apply Hx. rewrite E. now apply in_map.
  - exfalso. apply Hx. rewrite <- E. now apply in_map.
Qed.

Lemma find_key (i : Z) (rows : list Polls.row) (r : Polls.row) :
  NoDup (map Polls.poll_id rows) -> In r rows -> Polls.poll_id r = i ->
  find (fun r => Polls.poll_id r =? i) rows = Some r.
Proof.
  intros ND Hin E.
  destruct (find (fun r => Polls.poll_id r =? i) rows) as [r'|] eqn:F.
  - apply find_In_key in F as [Hin' E']. f_equal.
    apply (key_unique rows); congruence.
  - exfalso. apply (find_none _ _ F) in Hin. rewrite Z.eqb_neq in Hin. auto.
Qed.

Lemma fold_max_ge (l : list Z) (a : Z) :
  a <= fold_left Z.max l a /\ forall x, In x l -> x <= fold_left Z.max l a.
Proof.
  revert a. induction l as [|y l IH]; intros a; cbn [fold_left In].
  - split; [lia | tauto].
  - destruct (IH (Z.max a y)) as [H1 H2]. split; [lia|].
    intros x [<-|Hx]; [lia | auto].
Qed.

Lemma next_rowid_fresh (rows : list Polls.row) (r : Polls.row) :
  In r rows -> Polls.poll_id r < next_rowid rows.
Proof.
  destruct rows as [|x rows]; cbn [next_rowid In]; [tauto|].
  destruct (fold_max_ge (map Polls.poll_id rows) (Polls.poll_id x)) as [H1 H2].
  intros [->|H]; [lia|].
  specialize (H2 _ (in_map Polls.poll_id _ _ H)). lia.
Qed.

Lemma next_rowid_not_key (rows : list Polls.row) :
  ~ In (next_rowid rows) (map Polls.poll_id rows).
Proof.
  intros H. apply in_map_iff in H as (r & E & Hin).
  apply next_rowid_fresh in Hin. lia.
Qed.

Lemma length_filter_filter {A} (f g : A -> bool) (l : list A) :
  (length (filter g (filter f l)) <= length (filter g l))%nat.
Proof.
  induction l as [|x l IH]; simpl; [lia|].
  destruct (f x); simpl; destruct (g x); simpl; lia.
Qed.

Lemma filter_negb_nil {A} (g : A -> bool) (l : list A) :
  filter g (filter (fun x => negb (g x)) l) = [].
Proof.
  induction l as [|x l IH]; simpl; [reflexivity|].
  destruct (g x) eqn:E; simpl; [assumption|]. now rewrite E.
Qed.

Lemma filter_none {A} (f : A -> bool) (l : list A) :
  (forall x, In x l -> f x = false) -> filter f l = [].
Proof.
  induction l as [|x l IH]; simpl; intros H; [reflexivity|].
  rewrite (H x (or_introl eq_refl)). apply IH. auto.
Qed.

Lemma NoDup_snoc {A} (l : list A) (x : A) :
  NoDup l -> ~ In x l -> NoDup (l ++ [x]).
Proof.
  intros ND Hx. apply NoDup_app; [assumption| |].
  - constructor; [simpl; tauto | constructor].
  - intros a Ha [<-|[]]. exact (Hx Ha).
Qed.

Lemma not_In_filter_neq (r : Votes.row) (l : list Votes.row) :
  ~ In r (filter (fun x => negb (Votes.eqb x r)) l).
Proof.
  rewrite filter_In. intros [_ H].
  apply negb_true_iff, Votes_eqb_neq in H. now apply H.
Qed.

Lemma find_app_Some {A} (f : A -> bool) (l l' : list A) (x : A) :
  find f l = Some x -> find f (l ++ l') = Some x.
Proof.
  induction l as [|y l IH]; simpl; [discriminate|].
  destruct (f y); auto.
Qed.

Lemma find_app_None {A} (f : A -> bool) (l l' : list A) :
  find f l = None -> find f (l ++ l') = find f l'.
Proof.
  induction l as [|y l IH]; simpl; [reflexivity|].
  destruct (f y); [discriminate | auto].
Qed.

(** ** Integers that bind *)

Lemma existsb_key i rows :
  existsb (fun r => Polls.poll_id r =? i) rows
  = existsb (fun k => k =? i) (map Polls.poll_id rows).
Proof.
  induction rows as [|r rows IH]; simpl; [reflexivity|]. now rewrite IH.
Qed.

Lemma binds_id_keys i t t' :
  map Polls.poll_id (tPolls t') = map Polls.poll_id (tPolls t) ->
  binds_id i t' = binds_id i t.
Proof.
  intros E. unfold binds_id. now rewrite !existsb_key, E.
Qed.

Lemma binds_id_key i t :
  In i (map Polls.poll_id (tPolls t)) -> binds_id i t = true.
Proof.
  intros H. unfold binds_id. apply orb_true_iff. right.
  rewrite existsb_key. apply existsb_exists. exists i.
  split; [assumption | apply Z.eqb_refl].
Qed.


(** ** What a current object knows *)

Lemma init_tables_id i t p : init_tables i t = Ok p -> id p = i.
Proof.
  unfold init_tables. destruct (binds_id i t); [|discriminate].
  destruct (select_option_names i t); [discriminate|].
  destruct (select_poll i t); [|discriminate].
  intros H; inversion H; reflexivity.
Qed.

Lemma init_tables_current i t p : init_tables i t = Ok p -> current t p.
Proof.
  intros H. unfold current. now rewrite (init_tables_id _ _ _ H).
Qed.

Lemma current_row t p :
  current t p ->
  exists row,
    select_poll (id p) t = Some row /\ In row (tPolls t)
    /\ Polls.poll_id row = id p /\ Polls.max_votes row = max_votes p
    /\ length (vote_options p) = length (option_rows (id p) t).
Proof.
  unfold current, init_tables. intros H.
  destruct (binds_id (id p) t); [|discriminate].
  destruct (select_option_names (id p) t) as [|n ns] eqn:E; [discriminate|].
  destruct (select_poll (id p) t) as [row|] eqn:F; [|discriminate].
  exists row. destruct (find_In_key _ _ _ F) as [Hin Hid].
  injection H as Hp.
  repeat split; auto.
  - rewrite <- Hp. reflexivity.
  - rewrite <- length_select_option_names, E. rewrite <- Hp. reflexivity.
Qed.

Lemma init_tables_ext i t t' :
  binds_id i t' = binds_id i t ->
  select_option_names i t' = select_option_names i t ->
  select_poll i t' = option_map (fun r => r) (select_poll i t)
  \/ (exists r, select_poll i t = Some r
                /\ select_poll i t' = Some (set_finished r)) ->
  init_tables i t' = init_tables i t.
Proof.
  intros HB HO HP. unfold init_tables. rewrite HB, HO.
  destruct (binds_id i t); [|reflexivity].
  destruct HP as [HP | (r & H1 & H2)].
  - rewrite HP. destruct (select_poll i t); reflexivity.
  - rewrite H1, H2. reflexivity.
Qed.

Lemma current_frame t t' p :
  tPolls t' = tPolls t -> tVoteOptions t' = tVoteOptions t ->
  current t p -> current t' p.
Proof.
  intros HP HO Cur. unfold current. rewrite <- Cur.
  apply init_tables_ext.
  - apply binds_id_keys. now rewrite HP.
  - unfold select_option_names. now rewrite HO.
  - left. unfold select_poll. rewrite HP.
    now destruct (find _ (tPolls t)).
Qed.

(** ** The invariants are kept by the statements on [Votes] *)

Lemma wf_empty : wf (mkTables [] [] []).
Proof.
  constructor; simpl; try tauto; try constructor.
Qed.

Lemma wf_filter_votes (f : Votes.row -> bool) (t : Tables) :
  wf t -> wf (mkTables (tPolls t) (tVoteOptions t) (filter f (tVotes t))).
Proof.
  intros [K OF VF U R C]. constructor; simpl; auto.
  - intros v Hv. apply filter_In in Hv as [Hv _]. auto.
  - now apply NoDup_filter.
  - intros v Hv. apply filter_In in Hv as [Hv _]. exact (R v Hv).
  - intros r u Hr. specialize (C r u Hr).
    unfold select_votes_of in *; simpl.
    pose proof (length_filter_filter f
      (fun x => (Votes.poll_id x =? Polls.poll_id r)
                && String.eqb (Votes.voter x) u) (tVotes t)).
    lia.
Qed.

Lemma wf_insert_vote (i : Z) (u : string) (v : Z) (t : Tables)
    (row : Polls.row) :
  wf t -> In row (tPolls t) -> Polls.poll_id row = i ->
  0 <= v < Z.of_nat (length (option_rows i t)) ->
  Z.of_nat (length (select_votes_of i u t)) < Polls.max_votes row ->
  wf (insert_vote i u v t).
Proof.
  intros W Hrow Hid Hv Hroom.
  pose proof (wf_filter_votes
    (fun x => negb (Votes.eqb x (Votes.mk i u v))) t W) as [K OF VF U R C].
  simpl in *.
  constructor; unfold insert_vote; simpl; auto.
  - intros x Hx. apply in_app_iff in Hx as [Hx|[<-|[]]]; auto.
    simpl. rewrite <- Hid. now apply in_map.
  - apply NoDup_snoc; [assumption | apply not_In_filter_neq].
  - intros x Hx. apply in_app_iff in Hx as [Hx|[<-|[]]].
    + exact (R x Hx).
    + exact Hv.
  - intros r u' Hr. specialize (C r u' Hr).
    unfold select_votes_of in *; simpl in *.
    rewrite filter_app, length_app. simpl.
    destruct ((i =? Polls.poll_id r) && String.eqb u u') eqn:E; simpl.
    + apply andb_true_iff in E as [E1 E2].
      apply Z.eqb_eq in E1. apply String.eqb_eq in E2. subst u'.
      assert (r = row) as ->
        by (apply (key_unique (tPolls t)); auto; try congruence;
            apply W).
      rewrite <- E1.
      pose proof (length_filter_filter
        (fun x => negb (Votes.eqb x (Votes.mk i u v)))
        (fun x => (Votes.poll_id x =? i) && String.eqb (Votes.voter x) u)
        (tVotes t)).
      lia.
    + lia.
Qed.

Lemma select_votes_of_delete_votes_of i u t :
  select_votes_of i u (delete_votes_of i u t) = [].
Proof.
  unfold select_votes_of, delete_votes_of; simpl.
  apply (filter_negb_nil
    (fun r => (Votes.poll_id r =? i) && String.eqb (Votes.voter r) u)).
Qed.

Lemma vote_tables_frame p u v t :
  tPolls (snd (vote_tables p u v t)) = tPolls t
  /\ tVoteOptions (snd (vote_tables p u v t)) = tVoteOptions t.
Proof.
  unfold vote_tables.
  destruct (select_poll (id p) t) as [row|]; [|auto].
  destruct (Polls.finished row =? 1); [auto|].
  destruct ((v <? 0) || (v >=? Z.of_nat (length (vote_options p)))); [auto|].
  cbv zeta.
  destruct (existsb (Z.eqb v) _); [auto|].
  destruct (_ >=? max_votes p); [|auto].
  destruct (max_votes p =? 1); auto.
Qed.

Lemma vote_tables_wf p u v t :
  wf t -> current t p -> wf (snd (vote_tables p u v t)).
Proof.
  intros W Cur.
  destruct (current_row t p Cur) as (row & Sel & Hin & Hid & Hmax & Hlen).
  unfold vote_tables. rewrite Sel.
  destruct (Polls.finished row =? 1); [exact W|].
  destruct ((v <? 0) || (v >=? Z.of_nat (length (vote_options p)))) eqn:Rg;
    [exact W|].
  apply orb_false_iff in Rg as [Rg1 Rg2].
  apply Z.ltb_ge in Rg1. rewrite Z.geb_leb in Rg2. apply Z.leb_gt in Rg2.
  cbv zeta. rewrite length_map.
  destruct (existsb (Z.eqb v) _).
  { apply (wf_filter_votes _ t W). }
  destruct (_ >=? max_votes p) eqn:Full.
  - destruct (max_votes p =? 1) eqn:One; [|exact W]. simpl.
    apply Z.eqb_eq in One.
    apply (wf_insert_vote _ _ _ _ row); auto.
    + apply (wf_filter_votes _ t W).
    + unfold option_rows in *; simpl. lia.
    + rewrite select_votes_of_delete_votes_of. simpl. lia.
  - simpl. rewrite Z.geb_leb in Full. apply Z.leb_gt in Full.
    apply (wf_insert_vote _ _ _ _ row); auto.
    + unfold option_rows in *; lia.
    + lia.
Qed.

(** ** The invariants are kept by [end] *)

Lemma map_poll_id_update i rows :
  map Polls.poll_id
    (map (fun r => if Polls.poll_id r =? i then set_finished r else r) rows)
  = map Polls.poll_id rows.
Proof.
  rewrite map_map. apply map_ext. intros r.
  destruct (Polls.poll_id r =? i); reflexivity.
Qed.

Lemma select_poll_update i j t :
  select_poll j (update_finished i t)
  = option_map (fun r => if j =? i then set_finished r else r)
      (select_poll j t).
Proof.
  unfold select_poll, update_finished; simpl.
  induction (tPolls t) as [|x rows IH]; simpl; [reflexivity|].
  destruct (Polls.poll_id x =? i) eqn:Ei; simpl.
  - destruct (Polls.poll_id x =? j) eqn:Ej; [|exact IH]. simpl.
    apply Z.eqb_eq in Ei, Ej. subst. now rewrite Z.eqb_refl.
  - destruct (Polls.poll_id x =? j) eqn:Ej; [|exact IH]. simpl.
    apply Z.eqb_eq in Ej. subst. now rewrite Ei.
Qed.

Lemma init_tables_update i j t :
  init_tables j (update_finished i t) = init_tables j t.
Proof.
  apply init_tables_ext;
    [apply binds_id_keys, map_poll_id_update | reflexivity |].
  rewrite select_poll_update.
  destruct (select_poll j t) as [r|]; simpl; [|left; reflexivity].
  destruct (j =? i); [right; eauto | left; reflexivity].
Qed.

Lemma update_finished_wf i t : wf t -> wf (update_finished i t).
Proof.
  intros [K OF VF U R C].
  constructor; unfold update_finished; simpl;
    rewrite ?map_poll_id_update; auto.
  intros r u Hr. apply in_map_iff in Hr as (r0 & <- & Hr0).
  specialize (C r0 u Hr0). unfold select_votes_of in *; simpl.
  destruct (Polls.poll_id r0 =? i); exact C.
Qed.

Lemma end_Some p t : end_ p (Some t) = (Ok tt, Some (update_finished (id p) t)).
Proof. reflexivity. Qed.

(** ** The invariants are kept by [create] *)

Lemma insert_options_Some i names : forall n t,
  insert_options i n names (Some t)
  = (Ok tt, Some (mkTables (tPolls t)
                    (tVoteOptions t ++ numbered_options i n names)
                    (tVotes t))).
Proof.
  induction names as [|name names IH]; intros n t; simpl.
  - unfold ret. rewrite app_nil_r. now destruct t.
  - unfold bind, insert_option, execute. rewrite IH. simpl.
    now rewrite <- app_assoc.
Qed.

Lemma create_run c m o s pb mv db :
  let t' := create_tables_of c m o s pb mv (existing db) in
  create c m o s pb mv db
  = (init_tables (next_rowid (tPolls (existing db))) t', Some t').
Proof.
  intros t'. unfold create.
  unfold bind at 1.
  assert (E : create_tables db = (Ok tt, Some (existing db)))
    by (destruct db; reflexivity).
  rewrite E. unfold bind at 1. unfold insert_poll.
  unfold bind at 1. unfold select at 1.
  unfold bind at 1. unfold execute at 1. unfold ret at 1.
  unfold bind at 1. rewrite insert_options_Some. simpl.
  rewrite init_Some. reflexivity.
Qed.

Lemma numbered_options_poll i names : forall n o,
  In o (numbered_options i n names) -> VoteOptions.poll_id o = i.
Proof.
  induction names as [|name names IH]; intros n o; simpl; [tauto|].
  intros [<-|H]; [reflexivity | eauto].
Qed.

Lemma filter_numbered_options i j names n :
  filter (fun o => VoteOptions.poll_id o =? j) (numbered_options i n names)
  = if i =? j then numbered_options i n names else [].
Proof.
  revert n. induction names as [|name names IH]; intros n; simpl.
  - now destruct (i =? j).
  - rewrite IH. now destruct (i =? j).
Qed.

Lemma option_rows_create c m o s pb mv t j :
  option_rows j (create_tables_of c m o s pb mv t)
  = option_rows j t
    ++ (if next_rowid (tPolls t) =? j
        then numbered_options (next_rowid (tPolls t)) 0 (default_options o)
        else []).
Proof.
  unfold option_rows, create_tables_of; simpl.
  now rewrite filter_app, filter_numbered_options.
Qed.

Lemma create_tables_of_wf c m o s pb mv t :
  wf t -> wf (create_tables_of c m o s pb mv t).
Proof.
  intros W. pose proof W as [K OF VF U R C].
  constructor; simpl; rewrite ?map_app; simpl; auto.
  - apply NoDup_snoc; [assumption | apply next_rowid_not_key].
  - intros x Hx. apply in_app_iff. apply in_app_iff in Hx as [Hx|Hx]; auto.
    right. left. symmetry. eapply numbered_options_poll; eauto.
  - intros v Hv. apply in_app_iff. auto.
  - intros v Hv. rewrite option_rows_create, length_app.
    specialize (R v Hv). lia.
  - intros r u Hr. apply in_app_iff in Hr as [Hr|[<-|[]]].
    + exact (C r u Hr).
    + simpl. unfold select_votes_of; simpl.
      assert (E : filter
                (fun r => (Votes.poll_id r =? next_rowid (tPolls t))
                          && String.eqb (Votes.voter r) u) (tVotes t) = []).
      { apply filter_none.
        intros x Hx. apply andb_false_iff. left.
        apply Z.eqb_neq. intros E. apply (next_rowid_not_key (tPolls t)).
        rewrite <- E. auto. }
      rewrite E. unfold clamp_votes. simpl. lia.
Qed.

Lemma current_create c m o s pb mv t p :
  current t p -> current (create_tables_of c m o s pb mv t) p.
Proof.
  intros Cur. unfold current. rewrite <- Cur.
  destruct (current_row t p Cur) as (row & Sel & Hin & Hid & _).
  assert (Fresh : (next_rowid (tPolls t) =? id p) = false).
  { apply Z.eqb_neq. intros E. apply (next_rowid_not_key (tPolls t)).
    rewrite E, <- Hid. now apply in_map. }
  assert (Key : In (id p) (map Polls.poll_id (tPolls t)))
    by (rewrite <- Hid; now apply in_map).
  apply init_tables_ext.
  - rewrite !binds_id_key; [reflexivity | exact Key |].
    simpl. rewrite map_app. apply in_app_iff. now left.
  - unfold select_option_names.
    change (filter (fun o => VoteOptions.poll_id o =? id p)
              (tVoteOptions (create_tables_of c m o s pb mv t)))
      with (option_rows (id p) (create_tables_of c m o s pb mv t)).
    rewrite option_rows_create, Fresh, app_nil_r. reflexivity.
  - left. rewrite Sel. simpl. unfold select_poll in *; simpl.
    now apply find_app_Some.
Qed.

(** ** Every reachable world satisfies the invariants *)

Lemma step_inv w w' : inv w -> step w w' -> inv w'.
Proof.
  intros I St. destruct St as [w c m o s pb mv mm | w i | w p u v Hp | w p Hp];
    unfold inv in *; unfold eval, exec; simpl.
  - subst mm. rewrite create_run. simpl.
    assert (W : wf (existing (store w)))
      by (destruct (store w); [apply I | apply wf_empty]).
    split; [now apply create_tables_of_wf|].
    intros p Hp. apply in_app_iff in Hp as [Hp|Hp].
    + destruct (init_tables _ _) as [q|] eqn:E; simpl in Hp; [|tauto].
      destruct Hp as [<-|[]]. eapply init_tables_current; eauto.
    + destruct (store w) as [t|]; [|rewrite I in Hp; destruct Hp].
      apply current_create. now apply I.
  - unfold load. destruct (store w) as [t|].
    + rewrite init_Some. simpl. split; [apply I|].
      intros p Hp. apply in_app_iff in Hp as [Hp|Hp]; [|now apply I].
      destruct (init_tables i t) as [q|] eqn:E; simpl in Hp; [|tauto].
      destruct Hp as [<-|[]]. eapply init_tables_current; eauto.
    + rewrite init_None. simpl. exact I.
  - destruct (store w) as [t|]; [|rewrite I in Hp; destruct Hp].
    destruct I as [W Cur]. rewrite vote_Some. simpl.
    split; [apply vote_tables_wf; auto|].
    intros q Hq. destruct (vote_tables_frame p u v t) as [E1 E2].
    eapply current_frame; eauto.
  - destruct (store w) as [t|]; [|rewrite I in Hp; destruct Hp].
    destruct I as [W Cur]. rewrite end_Some. simpl.
    split; [now apply update_finished_wf|].
    intros q Hq. unfold current. rewrite init_tables_update. now apply Cur.
Qed.

Lemma steps_inv w w' : inv w -> steps w w' -> inv w'.
Proof.
  intros I St. induction St as [|w1 w2 w3 St IH S3]; [assumption|].
  apply (step_inv w2 w3); auto.
Qed.

Lemma reachable_inv w : reachable w -> inv w.
Proof. apply steps_inv. reflexivity. Qed.

Lemma reachable_live w p :
  reachable w -> In p (live w) ->
  exists t, store w = Some t /\ wf t /\ current t p.
Proof.
  intros Rw Hp. apply reachable_inv in Rw. unfold inv in Rw.
  destruct (store w) as [t|]; [|rewrite Rw in Hp; destruct Hp].
  exists t. split; [reflexivity|]. split; [apply Rw | now apply Rw].
Qed.

Lemma steps_trans w1 w2 w3 : steps w1 w2 -> steps w2 w3 -> steps w1 w3.
Proof.
  intros H12 H23. induction H23 as [|w2 w3 w4 H23 IH S4]; [assumption|].
  apply (steps_step w1 w3 w4); auto.
Qed.

Lemma steps_live w w' p : steps w w' -> In p (live w) -> In p (live w').
Proof.
  intros St. induction St as [|w1 w2 w3 St IH S3]; [auto|].
  intros Hp. specialize (IH Hp).
  destruct S3; simpl; auto; apply in_app_iff; auto.
Qed.

(** ** One call of [vote] on an unfinished poll *)

Lemma is_finished_false p db :
  eval (is_finished p) db = Ok false <->
  exists t, db = Some t /\ unfinished p t.
Proof.
  unfold eval, unfinished. split.
  - destruct db as [t|]; [|discriminate].
    rewrite is_finished_Some. simpl.
    destruct (select_poll (id p) t) as [row|] eqn:Sel; [|discriminate].
    intros H. exists t. split; [reflexivity|]. exists row.
    split; [exact Sel | congruence].
  - intros (t & -> & row & Sel & Fin). rewrite is_finished_Some, Sel. simpl.
    now rewrite Fin.
Qed.

Lemma valid_option_check p x :
  valid_option p x ->
  (x <? 0) || (x >=? Z.of_nat (length (vote_options p))) = false.
Proof.
  intros [H1 H2]. apply orb_false_iff. split.
  - now apply Z.ltb_ge.
  - rewrite Z.geb_leb. now apply Z.leb_gt.
Qed.

Lemma invalid_option_check p x :
  ~ valid_option p x ->
  (x <? 0) || (x >=? Z.of_nat (length (vote_options p))) = true.
Proof.
  intros H. apply orb_true_iff. unfold valid_option in H.
  destruct (Z.ltb_spec x 0); [left; reflexivity|]. right.
  rewrite Z.geb_leb. apply Z.leb_le. lia.
Qed.

Lemma existsb_eqb_In x l : existsb (Z.eqb x) l = true <-> In x l.
Proof.
  rewrite existsb_exists. split.
  - intros (y & Hy & E). apply Z.eqb_eq in E. now subst.
  - intros H. exists x. split; [assumption | apply Z.eqb_refl].
Qed.

Lemma existsb_eqb_not_In x l : existsb (Z.eqb x) l = false <-> ~ In x l.
Proof.
  rewrite <- existsb_eqb_In. destruct (existsb (Z.eqb x) l); split; congruence.
Qed.

Lemma vote_tables_unvote p u x t :
  unfinished p t -> valid_option p x -> In x (held p u t) ->
  vote_tables p u x t = (Ok tt, delete_vote (id p) u x t).
Proof.
  intros (row & Sel & Fin) V Hx. unfold vote_tables.
  rewrite Sel, Fin, (valid_option_check p x V). cbv zeta.
  apply existsb_eqb_In in Hx. unfold held in Hx. now rewrite Hx.
Qed.

Lemma vote_tables_insert p u x t :
  unfinished p t -> valid_option p x -> ~ In x (held p u t) ->
  Z.of_nat (length (held p u t)) < max_votes p ->
  vote_tables p u x t = (Ok tt, insert_vote (id p) u x t).
Proof.
  intros (row & Sel & Fin) V Hx Room. unfold vote_tables.
  rewrite Sel, Fin, (valid_option_check p x V). cbv zeta.
  apply existsb_eqb_not_In in Hx. unfold held in *. rewrite Hx.
  assert (E : (Z.of_nat (length (map Votes.vote
                 (select_votes_of (id p) u t))) >=? max_votes p) = false)
    by (rewrite Z.geb_leb; apply Z.leb_gt; exact Room).
  now rewrite E.
Qed.

Lemma vote_tables_replace p u x t :
  unfinished p t -> valid_option p x -> ~ In x (held p u t) ->
  max_votes p <= Z.of_nat (length (held p u t)) -> max_votes p = 1 ->
  vote_tables p u x t
  = (Ok tt, insert_vote (id p) u x (delete_votes_of (id p) u t)).
Proof.
  intros (row & Sel & Fin) V Hx Full One. unfold vote_tables.
  rewrite Sel, Fin, (valid_option_check p x V). cbv zeta.
  apply existsb_eqb_not_In in Hx. unfold held in *. rewrite Hx.
  assert (E : (Z.of_nat (length (map Votes.vote
                 (select_votes_of (id p) u t))) >=? max_votes p) = true)
    by (rewrite Z.geb_leb; apply Z.leb_le; exact Full).
  rewrite E. apply Z.eqb_eq in One. now rewrite One.
Qed.

Lemma vote_tables_no_more p u x t :
  unfinished p t -> valid_option p x -> ~ In x (held p u t) ->
  max_votes p <= Z.of_nat (length (held p u t)) -> max_votes p <> 1 ->
  vote_tables p u x t = (Raise NoMoreVotesError, t).
Proof.
  intros (row & Sel & Fin) V Hx Full One. unfold vote_tables.
  rewrite Sel, Fin, (valid_option_check p x V). cbv zeta.
  apply existsb_eqb_not_In in Hx. unfold held in *. rewrite Hx.
  assert (E : (Z.of_nat (length (map Votes.vote
                 (select_votes_of (id p) u t))) >=? max_votes p) = true)
    by (rewrite Z.geb_leb; apply Z.leb_le; exact Full).
  rewrite E. apply Z.eqb_neq in One. now rewrite One.
Qed.

Lemma vote_tables_index p u x t :
  unfinished p t -> ~ valid_option p x ->
  vote_tables p u x t = (Raise IndexError, t).
Proof.
  intros (row & Sel & Fin) V. unfold vote_tables.
  now rewrite Sel, Fin, (invalid_option_check p x V).
Qed.

(** What the voter holds after a statement on [Votes]. *)

Lemma held_filter_neq i u x (l : list Votes.row) :
  map Votes.vote
    (filter (fun r => (Votes.poll_id r =? i) && String.eqb (Votes.voter r) u)
       (filter (fun r => negb (Votes.eqb r (Votes.mk i u x))) l))
  = filter (fun y => negb (y =? x))
      (map Votes.vote
         (filter
            (fun r => (Votes.poll_id r =? i) && String.eqb (Votes.voter r) u)
            l)).
Proof.
  induction l as [|y l IH]; simpl; [reflexivity|].
  unfold Votes.eqb at 1. simpl.
  destruct ((Votes.poll_id y =? i) && String.eqb (Votes.voter y) u) eqn:G;
    simpl.
  - destruct (Votes.vote y =? x) eqn:E; simpl.
    + exact IH.
    + rewrite G. simpl. now rewrite IH.
  - rewrite G. exact IH.
Qed.

Lemma held_delete_vote p u x t :
  held p u (delete_vote (id p) u x t)
  = filter (fun y => negb (y =? x)) (held p u t).
Proof. apply held_filter_neq. Qed.

Lemma held_insert_vote p u x t :
  held p u (insert_vote (id p) u x t)
  = filter (fun y => negb (y =? x)) (held p u t) ++ [x].
Proof.
  unfold held, select_votes_of, insert_vote; simpl.
  rewrite filter_app, map_app, held_filter_neq. simpl.
  now rewrite Z.eqb_refl, String.eqb_refl.
Qed.

Lemma held_delete_votes_of p u t :
  held p u (delete_votes_of (id p) u t) = [].
Proof.
  unfold held. now rewrite select_votes_of_delete_votes_of.
Qed.

Lemma filter_neq_id x (l : list Z) :
  ~ In x l -> filter (fun y => negb (y =? x)) l = l.
Proof.
  induction l as [|y l IH]; simpl; [reflexivity|].
  intros H. destruct (Z.eqb_spec y x) as [->|N]; simpl.
  - exfalso. auto.
  - f_equal. auto.
Qed.

Lemma filter_neq_snoc x (l : list Z) :
  ~ In x l -> filter (fun y => negb (y =? x)) (l ++ [x]) = l.
Proof.
  intros H. rewrite filter_app, (filter_neq_id x l H). simpl.
  now rewrite Z.eqb_refl, app_nil_r.
Qed.

Lemma unfinished_frame p t t' :
  tPolls t' = tPolls t -> unfinished p t -> unfinished p t'.
Proof.
  intros E (row & Sel & Fin). exists row. unfold select_poll in *.
  now rewrite E.
Qed.

(** ** Concrete runs *)

Example lunch_created : eval lunch None = Ok lunch_poll.
Proof. reflexivity. Qed.

Lemma reachable_w_lunch : reachable w_lunch.
Proof.
  apply (steps_step _ init_world); [apply steps_refl|].
  exact (step_create init_world "alice" "Lunch?"
           ["Pizza"; "Sushi"; "Salad"]%string false true 2).
Qed.

Lemma live_lunch : In lunch_poll (live w_lunch).
Proof. left. reflexivity. Qed.

Lemma reachable_w_bob1 : reachable w_bob1.
Proof.
  apply (steps_step _ w_lunch); [apply reachable_w_lunch|].
  exact (step_vote w_lunch lunch_poll "bob" 1 live_lunch).
Qed.

Lemma reachable_w_bob12 : reachable w_bob12.
Proof.
  apply (steps_step _ w_bob1); [apply reachable_w_bob1|].
  exact (step_vote w_bob1 lunch_poll "bob" 2 live_lunch).
Qed.

Lemma reachable_w_ended : reachable w_ended.
Proof.
  apply (steps_step _ w_bob12); [apply reachable_w_bob12|].
  exact (step_end w_bob12 lunch_poll live_lunch).
Qed.

Lemma reachable_w_yesno : reachable w_yesno.
Proof.
  apply (steps_step _ init_world); [apply steps_refl|].
  exact (step_create init_world "carol" "Ship it?" [] false false 1).
Qed.

Lemma live_yesno : In yesno_poll (live w_yesno).
Proof. left. reflexivity. Qed.

Lemma reachable_w_dave0 : reachable w_dave0.
Proof.
  apply (steps_step _ w_yesno); [apply reachable_w_yesno|].
  exact (step_vote w_yesno yesno_poll "dave" 0 live_yesno).
Qed.

Example sqlite_int_bounds :
  (sqlite_int (- 2 ^ 63), sqlite_int (2 ^ 63 - 1),
   sqlite_int (2 ^ 63), sqlite_int (- 2 ^ 63 - 1))
  = (true, true, false, false).
Proof. reflexivity. Qed.

Example voters_huge_index :
  eval (voters lunch_poll (2 ^ 63)) (store w_bob12) = Raise OverflowError.
Proof. reflexivity. Qed.

Example load_fresh_database :
  eval (load (2 ^ 63)) None = Raise InvalidPollError.
Proof. reflexivity. Qed.

Example bob_votes : eval (votes lunch_poll "bob") (store w_bob12) = Ok [1; 2].
Proof. reflexivity. Qed.

Example bob_third :
  eval (vote lunch_poll "bob" 0) (store w_bob12) = Raise NoMoreVotesError.
Proof. reflexivity. Qed.

Example bob_unvote :
  eval (votes lunch_poll "bob")
    (exec (vote lunch_poll "bob" 1) (store w_bob12)) = Ok [2].
Proof. reflexivity. Qed.

Example dave_changes :
  eval (votes yesno_poll "dave")
    (exec (vote yesno_poll "dave" 1) (store w_dave0)) = Ok [1].
Proof. reflexivity. Qed.

Example ended_vote :
  vote lunch_poll "bob" 7 (store w_ended) = (Ok tt, store w_ended).
Proof. reflexivity. Qed.

Example tallies :
  (eval (num_votes lunch_poll) (store w_bob12),
   eval (num_voters lunch_poll) (store w_bob12),
   eval (count_votes lunch_poll 1) (store w_bob12),
   eval (voters lunch_poll 2) (store w_bob12))
  = (Ok 2%nat, Ok 1%nat, Ok 1%nat, Ok ["bob"%string]).
Proof. reflexivity. Qed.
(** ** Toggle semantics (C1) *)

Lemma In_held p u x t :
  In x (held p u t) <-> In (Votes.mk (id p) u x) (tVotes t).
Proof.
  unfold held, select_votes_of. rewrite in_map_iff. split.
  - intros (r & E & Hr). apply filter_In in Hr as [Hr G].
    apply andb_true_iff in G as [G1 G2].
    apply Z.eqb_eq in G1. apply String.eqb_eq in G2.
    destruct r as [i' u' x']; simpl in *. now subst.
  - intros H. exists (Votes.mk (id p) u x). split; [reflexivity|].
    apply filter_In. split; [assumption|]. simpl.
    now rewrite Z.eqb_refl, String.eqb_refl.
Qed.

Lemma held_valid p u x t :
  wf t -> current t p -> In x (held p u t) -> valid_option p x.
Proof.
  intros W Cur Hx. apply In_held in Hx.
  destruct (current_row t p Cur) as (row & _ & _ & _ & _ & Hlen).
  pose proof (wf_range t W _ Hx) as R. simpl in R.
  unfold valid_option. lia.
Qed.

Lemma remove_row_perm (r : Votes.row) (l : list Votes.row) :
  NoDup l -> In r l ->
  Permutation l (r :: filter (fun x => negb (Votes.eqb x r)) l).
Proof.
  induction l as [|y l IH]; simpl; [tauto|].
  intros ND Hr. apply NoDup_cons_iff in ND as [Hy ND].
  destruct (Votes.eqb y r) eqn:E; simpl.
  - apply Votes_eqb_eq in E. subst y. apply perm_skip.
    assert (F : filter (fun x => negb (Votes.eqb x r)) l = l).
    { clear IH ND Hr. induction l as [|z l IHl]; simpl; [reflexivity|].
      destruct (Votes.eqb z r) eqn:Ez; simpl.
      - apply Votes_eqb_eq in Ez. subst. exfalso. apply Hy. now left.
      - f_equal. apply IHl. intros H. apply Hy. now right. }
    now rewrite F.
  - apply Votes_eqb_neq in E. destruct Hr as [->|Hr]; [congruence|].
    eapply perm_trans; [apply perm_skip, IH; assumption | apply perm_swap].
Qed.

Lemma casts_S p u x n t :
  casts p u x (S n) (Some t)
  = match vote_tables p u x t with
    | (Ok _, t') => casts p u x n (Some t')
    | (Raise e, t') => (Raise e, Some t')
    end.
Proof.
  simpl. unfold bind. rewrite vote_Some.
  destruct (vote_tables p u x t) as [[[]|e] t']; reflexivity.
Qed.

Lemma vote_can_cast p u x t :
  valid_option p x -> can_cast p u x t ->
  exists t', vote_tables p u x t = (Ok tt, t') /\ has_cast p u x t'.
Proof.
  intros V (Unf & Hx & Room). exists (insert_vote (id p) u x t).
  split; [now apply vote_tables_insert|]. split.
  - now apply (unfinished_frame p t).
  - exists (held p u t). rewrite held_insert_vote, filter_neq_id by assumption.
    auto.
Qed.

Lemma vote_has_cast p u x t :
  valid_option p x -> has_cast p u x t ->
  exists t', vote_tables p u x t = (Ok tt, t') /\ can_cast p u x t'.
Proof.
  intros V (Unf & others & Hh & Hx & Room).
  exists (delete_vote (id p) u x t). split.
  - apply vote_tables_unvote; auto. rewrite Hh. apply in_app_iff.
    right. now left.
  - split; [now apply (unfinished_frame p t)|].
    rewrite held_delete_vote, Hh, filter_neq_snoc by assumption. auto.
Qed.

Lemma vote_first_cast p u x t :
  valid_option p x -> unfinished p t -> ~ In x (held p u t) ->
  Z.of_nat (length (held p u t)) < max_votes p \/ max_votes p = 1 ->
  exists t', vote_tables p u x t = (Ok tt, t') /\ has_cast p u x t'.
Proof.
  intros V Unf Hx Room.
  destruct (Z.lt_ge_cases (Z.of_nat (length (held p u t))) (max_votes p))
    as [Lt|Ge].
  - apply vote_can_cast; [assumption|]. repeat split; assumption.
  - destruct Room as [Lt|One]; [lia|].
    exists (insert_vote (id p) u x (delete_votes_of (id p) u t)).
    split; [now apply vote_tables_replace|]. split.
    + now apply (unfinished_frame p t).
    + exists []. rewrite held_insert_vote, held_delete_votes_of. simpl.
      repeat split; [tauto | lia].
Qed.

Lemma casts_alternate p u x :
  valid_option p x ->
  forall n t,
    (can_cast p u x t ->
     exists t', casts p u x n (Some t) = (Ok tt, Some t')
       /\ if Nat.odd n then has_cast p u x t' else can_cast p u x t')
    /\ (has_cast p u x t ->
        exists t', casts p u x n (Some t) = (Ok tt, Some t')
          /\ if Nat.odd n then can_cast p u x t' else has_cast p u x t').
Proof.
  intros V. induction n as [|n IH]; intros t.
  - split; intros H; exists t; split; auto.
  - assert (O : Nat.odd (S n) = negb (Nat.odd n))
      by (rewrite Nat.odd_succ, <- Nat.negb_odd; reflexivity).
    rewrite O. split; intros H.
    + destruct (vote_can_cast p u x t V H) as (t1 & E1 & H1).
      destruct (proj2 (IH t1) H1) as (t' & E' & H').
      exists t'. rewrite casts_S, E1. split; [exact E'|].
      destruct (Nat.odd n); exact H'.
    + destruct (vote_has_cast p u x t V H) as (t1 & E1 & H1).
      destruct (proj1 (IH t1) H1) as (t' & E' & H').
      exists t'. rewrite casts_S, E1. split; [exact E'|].
      destruct (Nat.odd n); exact H'.
Qed.

Lemma can_cast_count p u x t :
  can_cast p u x t ->
  ~ In x (held p u t) /\ count_occ Z.eq_dec (held p u t) x = 0%nat.
Proof.
  intros (_ & Hx & _). split; [assumption|].
  now apply count_occ_not_In.
Qed.

Lemma has_cast_count p u x t :
  has_cast p u x t ->
  In x (held p u t) /\ count_occ Z.eq_dec (held p u t) x = 1%nat.
Proof.
  intros (_ & others & Hh & Hx & _). rewrite Hh. split.
  - apply in_app_iff. right. now left.
  - rewrite count_occ_app. apply (count_occ_not_In Z.eq_dec) in Hx.
    rewrite Hx. simpl. now destruct (Z.eq_dec x x).
Qed.

(** C1.  On an unfinished poll, voting for an option the voter holds
    deletes exactly that one record and returns; and [n] casts in a row of
    an option the voter does not hold and may cast all return, after which
    the voter holds the option (once) iff [n] is odd. *)
Theorem vote_toggles (w : World) (p : Poll) (u : string) :
  reachable w -> In p (live w) ->
  eval (is_finished p) (store w) = Ok false ->
  (forall x hs,
     eval (votes p u) (store w) = Ok hs -> In x hs ->
     eval (vote p u x) (store w) = Ok tt
     /\ exists t t',
          store w = Some t /\ exec (vote p u x) (store w) = Some t'
          /\ tPolls t' = tPolls t /\ tVoteOptions t' = tVoteOptions t
          /\ Permutation (tVotes t) (Votes.mk (id p) u x :: tVotes t')
          /\ ~ In (Votes.mk (id p) u x) (tVotes t'))
  /\ (forall x hs,
        eval (votes p u) (store w) = Ok hs ->
        valid_option p x -> ~ In x hs ->
        Z.of_nat (length hs) < max_votes p \/ max_votes p = 1 ->
        forall n,
          eval (casts p u x n) (store w) = Ok tt
          /\ exists hs',
               eval (votes p u) (exec (casts p u x n) (store w)) = Ok hs'
               /\ (In x hs' <-> Nat.odd n = true)
               /\ count_occ Z.eq_dec hs' x
                  = if Nat.odd n then 1%nat else 0%nat).
Proof.
  intros Rw Hp Fin.
  destruct (reachable_live w p Rw Hp) as (t & St & W & Cur).
  rewrite St in *. apply is_finished_false in Fin as (t0 & E0 & Unf).
  injection E0 as <-. unfold eval, exec. split.
  - intros x hs Hv Hx. rewrite votes_Some in Hv. simpl in Hv.
    injection Hv as <-. fold (held p u t) in Hx.
    pose proof (held_valid p u x t W Cur Hx) as V.
    rewrite vote_Some, (vote_tables_unvote p u x t Unf V Hx). simpl.
    split; [reflexivity|]. exists t, (delete_vote (id p) u x t).
    repeat split.
    + apply remove_row_perm; [apply W | now apply In_held].
    + apply not_In_filter_neq.
  - intros x hs Hv V Hx Room n. rewrite votes_Some in Hv. simpl in Hv.
    injection Hv as <-. fold (held p u t) in Hx, Room.
    destruct n as [|n].
    + simpl. split; [reflexivity|]. exists (held p u t).
      split; [reflexivity|]. split; [split; [tauto | discriminate]|].
      now apply count_occ_not_In.
    + destruct (vote_first_cast p u x t V Unf Hx Room) as (t1 & E1 & H1).
      destruct (proj2 (casts_alternate p u x V n t1) H1) as (t' & E' & H').
      rewrite casts_S, E1, E'. simpl. split; [reflexivity|].
      exists (held p u t'). split; [reflexivity|].
      rewrite Nat.odd_succ, <- Nat.negb_odd.
      destruct (Nat.odd n); simpl.
      * destruct (can_cast_count p u x t' H') as [N C].
        split; [split; [tauto | discriminate] | exact C].
      * destruct (has_cast_count p u x t' H') as [I C].
        split; [split; auto | exact C].
Qed.

Lemma vote_toggles_witness :
  eval (vote lunch_poll "bob" 1) (store w_bob1) = Ok tt
  /\ eval (casts lunch_poll "bob" 0 3) (store w_bob1) = Ok tt.
Proof.
  destruct (vote_toggles w_bob1 lunch_poll "bob" reachable_w_bob1 live_lunch
              eq_refl) as [H1 H2].
  split.
  - apply (H1 1 [1]); [reflexivity | simpl; auto].
  - apply (H2 0 [1]); [reflexivity | unfold valid_option; simpl; lia
                       | simpl; intros [H|[]]; discriminate
                       | left; simpl; lia].
Defined.

(** ** Creation (C6) *)

Lemma order_by_number_numbered i names : forall n,
  order_by_number (numbered_options i n names) = numbered_options i n names.
Proof.
  induction names as [|name names IH]; intros n; simpl; [reflexivity|].
  rewrite IH. destruct names as [|name' names]; simpl; [reflexivity|].
  destruct (Z.leb_spec n (n + 1)); [reflexivity | lia].
Qed.

Lemma names_numbered i names : forall n,
  map VoteOptions.name (numbered_options i n names) = names.
Proof.
  induction names as [|name names IH]; intros n; simpl; [reflexivity|].
  now rewrite IH.
Qed.

Lemma select_poll_created c m o s pb mv t :
  select_poll (next_rowid (tPolls t)) (create_tables_of c m o s pb mv t)
  = Some (Polls.mk (next_rowid (tPolls t)) c m 0 s pb
            (clamp_votes mv (default_options o))).
Proof.
  unfold select_poll, create_tables_of; simpl.
  rewrite find_app_None; [simpl; now rewrite Z.eqb_refl|].
  destruct (find _ (tPolls t)) as [r|] eqn:F; [|reflexivity].
  apply find_In_key in F as [Hin E].
  apply next_rowid_fresh in Hin. lia.
Qed.

Lemma select_option_names_created c m o s pb mv t :
  wf t ->
  select_option_names (next_rowid (tPolls t))
    (create_tables_of c m o s pb mv t)
  = default_options o.
Proof.
  intros W. unfold select_option_names.
  change (filter (fun x => VoteOptions.poll_id x =? next_rowid (tPolls t))
            (tVoteOptions (create_tables_of c m o s pb mv t)))
    with (option_rows (next_rowid (tPolls t))
            (create_tables_of c m o s pb mv t)).
  rewrite option_rows_create, Z.eqb_refl.
  assert (E : option_rows (next_rowid (tPolls t)) t = []).
  { apply filter_none. intros x Hx. apply Z.eqb_neq. intros E.
    apply (next_rowid_not_key (tPolls t)). rewrite <- E.
    now apply (wf_options_fk t W). }
  rewrite E. simpl.
  now rewrite order_by_number_numbered, names_numbered.
Qed.

Lemma binds_id_created c m o s pb mv t :
  binds_id (next_rowid (tPolls t)) (create_tables_of c m o s pb mv t) = true.
Proof.
  apply binds_id_key. simpl. rewrite map_app. apply in_app_iff.
  right. now left.
Qed.

Lemma default_options_nonempty o : default_options o <> [].
Proof. destruct o; discriminate. Qed.

Lemma reachable_existing_wf w : reachable w -> wf (existing (store w)).
Proof.
  intros Rw. apply reachable_inv in Rw. unfold inv in Rw.
  destruct (store w); [apply Rw | apply wf_empty].
Qed.

Lemma create_created c m o s pb mv db :
  wf (existing db) ->
  create c m o s pb mv db
  = (Ok (mkPoll (next_rowid (tPolls (existing db))) c m (default_options o)
           s pb (clamp_votes mv (default_options o))),
     Some (create_tables_of c m o s pb mv (existing db))).
Proof.
  intros W. rewrite create_run. cbv zeta. f_equal.
  unfold init_tables.
  rewrite binds_id_created.
  rewrite select_option_names_created, select_poll_created by assumption.
  pose proof (default_options_nonempty o).
  destruct (default_options o); [congruence | reflexivity].
Qed.

(** C6.  [create] replaces an empty option list by Yes/No and stores
    [max_votes] clamped into [1, len(vote_options)]: the object it returns
    and the row it leaves in [Polls] carry these values, so every created
    poll has at least one option and 1 <= max_votes <= len(vote_options). *)
Theorem create_defaults_and_clamp (w : World) (creator message : string)
    (opts : list string) (secret public : bool) (mv : Z) :
  reachable w ->
  exists p t' row,
    eval (create creator message opts secret public mv) (store w) = Ok p
    /\ exec (create creator message opts secret public mv) (store w) = Some t'
    /\ select_poll (id p) t' = Some row
    /\ vote_options p
       = match opts with
         | [] => ["Yes"%string; "No"%string]
         | _ :: _ => opts
         end
    /\ max_votes p
       = Z.max 1 (Z.min mv (Z.of_nat (length (vote_options p))))
    /\ Polls.max_votes row = max_votes p
    /\ Polls.finished row = 0
    /\ select_option_names (id p) t' = vote_options p
    /\ (1 <= length (vote_options p))%nat
    /\ 1 <= max_votes p <= Z.of_nat (length (vote_options p))
    /\ (opts = [] -> mv = 1 ->
        vote_options p = ["Yes"%string; "No"%string] /\ max_votes p = 1)
    /\ (length opts = 2%nat -> mv = 5 -> max_votes p = 2).
Proof.
  intros Rw. pose proof (reachable_existing_wf w Rw) as W.
  unfold eval, exec. rewrite (create_created _ _ _ _ _ _ _ W). simpl.
  eexists. eexists. eexists. split; [reflexivity|]. split; [reflexivity|].
  simpl. split; [apply select_poll_created|]. simpl.
  split; [reflexivity|]. split; [reflexivity|]. split; [reflexivity|].
  split; [reflexivity|].
  split; [now apply select_option_names_created|].
  assert (L : (1 <= length (default_options opts))%nat)
    by (destruct opts; simpl; lia).
  split; [exact L|]. unfold clamp_votes.
  split; [lia|]. split.
  - intros -> ->. split; reflexivity.
  - intros L2 ->. destruct opts as [|a [|b [|c l]]]; try discriminate.
    reflexivity.
Qed.

Lemma create_defaults_and_clamp_witness :
  exists p,
    eval (create "erin" "Tea?" [] false false 1) (store w_lunch) = Ok p
    /\ vote_options p = ["Yes"%string; "No"%string] /\ max_votes p = 1.
Proof.
  destruct (create_defaults_and_clamp w_lunch "erin" "Tea?" [] false false 1
              reachable_w_lunch)
    as (p & t' & row & E & _ & _ & _ & _ & _ & _ & _ & _ & _ & D & _).
  exists p. split; [exact E | exact (D eq_refl eq_refl)].
Defined.

(** ** Single-choice polls (C2) *)

Lemma held_ceiling w p u t :
  reachable w -> In p (live w) -> store w = Some t ->
  Z.of_nat (length (held p u t)) <= max_votes p.
Proof.
  intros Rw Hp St.
  destruct (reachable_live w p Rw Hp) as (t0 & St0 & W & Cur).
  rewrite St in St0. injection St0 as <-.
  destruct (current_row t p Cur) as (row & _ & Hin & Hid & Hmax & _).
  pose proof (wf_ceiling t W row u Hin) as C.
  unfold held. rewrite length_map. rewrite Hid, Hmax in C. exact C.
Qed.

(** C2.  In a poll with [max_votes = 1] (as [create] makes it when it is
    given [max_votes=1]) a voter never holds more than one option; a cast of
    an option the voter does not hold returns and leaves exactly that option
    in [votes(voter)], and when the voter held an option, every record of
    the voter is deleted before the new one is inserted. *)
Theorem single_choice_overwrites (w : World) (p : Poll) (u : string) :
  reachable w -> In p (live w) -> max_votes p = 1 ->
  (exists hs,
     eval (votes p u) (store w) = Ok hs /\ (length hs <= 1)%nat)
  /\ (forall x hs,
        eval (is_finished p) (store w) = Ok false ->
        eval (votes p u) (store w) = Ok hs ->
        valid_option p x -> ~ In x hs ->
        eval (vote p u x) (store w) = Ok tt
        /\ eval (votes p u) (exec (vote p u x) (store w)) = Ok [x]
        /\ (hs <> [] ->
            exists t,
              store w = Some t
              /\ select_votes_of (id p) u (delete_votes_of (id p) u t) = []
              /\ exec (vote p u x) (store w)
                 = Some (insert_vote (id p) u x
                           (delete_votes_of (id p) u t))))
  /\ (forall c m o s pb db q,
        eval (create c m o s pb 1) db = Ok q -> max_votes q = 1).
Proof.
  intros Rw Hp One.
  destruct (reachable_live w p Rw Hp) as (t & St & W & Cur).
  pose proof (held_ceiling w p u t Rw Hp St) as C.
  rewrite St. unfold eval, exec. split; [|split].
  - exists (held p u t). split; [reflexivity | lia].
  - intros x hs Fin Hv V Hx.
    apply is_finished_false in Fin as (t0 & E0 & Unf). injection E0 as <-.
    rewrite votes_Some in Hv. simpl in Hv. injection Hv as <-.
    fold (held p u t) in Hx |- *. rewrite vote_Some.
    destruct (held p u t) as [|y ys] eqn:Hh.
    + rewrite (vote_tables_insert p u x t Unf V); rewrite ?Hh; simpl;
        [|tauto|lia].
      cbn [fst snd]. split; [reflexivity|]. split; [|congruence].
      change (Ok (held p u (insert_vote (id p) u x t)) = Ok [x]).
      now rewrite held_insert_vote, Hh.
    + rewrite (vote_tables_replace p u x t Unf V); rewrite ?Hh;
        [|assumption|simpl; lia|assumption].
      cbn [fst snd]. split; [reflexivity|]. split.
      * change (Ok (held p u (insert_vote (id p) u x
                                (delete_votes_of (id p) u t))) = Ok [x]).
        now rewrite held_insert_vote, held_delete_votes_of.
      * intros _. exists t. split; [reflexivity|].
        split; [apply select_votes_of_delete_votes_of | reflexivity].
  - intros c m o s pb db q. rewrite create_run. cbv zeta. simpl.
    unfold init_tables. rewrite binds_id_created, select_poll_created.
    destruct (select_option_names _ _); [discriminate|].
    intros H. injection H as <-. simpl. unfold clamp_votes.
    pose proof (default_options_nonempty o).
    destruct (default_options o); [congruence|]. simpl length. lia.
Qed.

Lemma single_choice_overwrites_witness :
  eval (votes yesno_poll "dave")
    (exec (vote yesno_poll "dave" 1) (store w_dave0)) = Ok [1].
Proof.
  destruct (single_choice_overwrites w_dave0 yesno_poll "dave"
              reachable_w_dave0 live_yesno eq_refl) as (_ & H & _).
  apply (H 1 [0]); [reflexivity | reflexivity | unfold valid_option; simpl; lia
                    | simpl; intros [E|[]]; discriminate].
Defined.

(** ** The ceiling of multi-choice polls (C3) *)

(** C3.  On an unfinished poll with [max_votes = M > 1], when the voter
    holds [M] options, a vote for a valid option that is not among them
    raises [NoMoreVotesError] and leaves the database as it was, so every
    record and every tally is unchanged. *)
Theorem no_more_votes_no_mutation (db : DB) (p : Poll) (u : string) (x : Z)
    (hs : list Z) :
  eval (is_finished p) db = Ok false ->
  1 < max_votes p ->
  eval (votes p u) db = Ok hs ->
  Z.of_nat (length hs) = max_votes p ->
  valid_option p x -> ~ In x hs ->
  vote p u x db = (Raise NoMoreVotesError, db)
  /\ eval (votes p u) (exec (vote p u x) db) = Ok hs
  /\ (forall q i, count_votes q i (exec (vote p u x) db) = count_votes q i db)
  /\ (forall q, num_votes q (exec (vote p u x) db) = num_votes q db).
Proof.
  intros Fin M Hv Len V Hx.
  apply is_finished_false in Fin as (t & -> & Unf).
  unfold eval in Hv. rewrite votes_Some in Hv. simpl in Hv.
  injection Hv as <-. fold (held p u t) in *.
  assert (E : vote p u x (Some t) = (Raise NoMoreVotesError, Some t)).
  { rewrite vote_Some, (vote_tables_no_more p u x t Unf V Hx); [reflexivity| |];
      lia. }
  unfold exec. rewrite E. simpl. repeat split; reflexivity.
Qed.

Lemma no_more_votes_no_mutation_witness :
  vote lunch_poll "bob" 0 (store w_bob12)
  = (Raise NoMoreVotesError, store w_bob12).
Proof.
  apply (no_more_votes_no_mutation (store w_bob12) lunch_poll "bob" 0 [1; 2]);
    [reflexivity | reflexivity | reflexivity | reflexivity
     | unfold valid_option; simpl; lia
     | simpl; intros [E|[E|[]]]; discriminate].
Defined.

(** ** Out-of-range options (C5) *)

(** C5.  On an unfinished poll a vote for an index outside
    [0, len(vote_options)), such as -1 or len(vote_options), raises
    [IndexError], which is neither [NoMoreVotesError] nor the plain return
    of a finished poll, and leaves the database as it was. *)
Theorem out_of_range_vote (db : DB) (p : Poll) (u : string) :
  eval (is_finished p) db = Ok false ->
  (forall x, ~ valid_option p x -> vote p u x db = (Raise IndexError, db))
  /\ vote p u (-1) db = (Raise IndexError, db)
  /\ vote p u (Z.of_nat (length (vote_options p))) db = (Raise IndexError, db)
  /\ IndexError <> NoMoreVotesError
  /\ @Raise unit IndexError <> Ok tt.
Proof.
  intros Fin. apply is_finished_false in Fin as (t & -> & Unf).
  assert (H : forall x, ~ valid_option p x ->
                        vote p u x (Some t) = (Raise IndexError, Some t)).
  { intros x V. now rewrite vote_Some, (vote_tables_index p u x t Unf V). }
  split; [exact H|]. split; [|split; [|split; discriminate]].
  - apply H. unfold valid_option. lia.
  - apply H. unfold valid_option. lia.
Qed.

Lemma out_of_range_vote_witness :
  vote lunch_poll "bob" 3 (store w_bob1) = (Raise IndexError, store w_bob1).
Proof.
  destruct (out_of_range_vote (store w_bob1) lunch_poll "bob" eq_refl)
    as (_ & _ & H & _).
  exact H.
Defined.

(** ** Finalisation (C4) *)

Lemma step_finished w w' p :
  step w w' -> finished_at p (store w) -> finished_at p (store w').
Proof.
  intros St (t & row & E & Sel & Fin).
  destruct St as [w c m o s pb mv mm | w i | w q u v Hq | w q Hq];
    unfold exec; simpl; rewrite E.
  - subst mm. rewrite create_run. simpl.
    exists (create_tables_of c m o s pb mv t), row.
    split; [reflexivity|]. split; [|assumption].
    unfold select_poll in *; simpl. now apply find_app_Some.
  - unfold load. rewrite init_Some. simpl. exists t, row. auto.
  - rewrite vote_Some. simpl.
    exists (snd (vote_tables q u v t)), row. split; [reflexivity|].
    split; [|assumption]. unfold select_poll in *.
    now rewrite (proj1 (vote_tables_frame q u v t)).
  - rewrite end_Some. simpl.
    exists (update_finished (id q) t),
           (if id p =? id q then set_finished row else row).
    split; [reflexivity|]. split.
    + now rewrite select_poll_update, Sel.
    + destruct (id p =? id q); [reflexivity | assumption].
Qed.

Lemma steps_finished w w' p :
  steps w w' -> finished_at p (store w) -> finished_at p (store w').
Proof.
  intros St. induction St as [|w1 w2 w3 St IH S3]; [auto|].
  intros F. apply (step_finished w2 w3); auto.
Qed.

Lemma set_finished_id row : Polls.finished row = 1 -> set_finished row = row.
Proof. destruct row; simpl; intros ->; reflexivity. Qed.

Lemma update_finished_again i t row :
  wf t -> select_poll i t = Some row -> Polls.finished row = 1 ->
  update_finished i t = t.
Proof.
  intros W Sel Fin. apply find_In_key in Sel as [Hin Hid].
  unfold update_finished. destruct t as [ps os vs]; simpl in *. f_equal.
  rewrite <- (map_id ps) at 2. apply map_ext_in. intros r Hr.
  destruct (Z.eqb_spec (Polls.poll_id r) i) as [E|N]; [|reflexivity].
  assert (r = row) as ->
    by (apply (key_unique ps); auto; [apply (wf_key _ W) | congruence]).
  now apply set_finished_id.
Qed.

Lemma finished_vote p u x t row :
  select_poll (id p) t = Some row -> Polls.finished row = 1 ->
  vote p u x (Some t) = (Ok tt, Some t).
Proof.
  intros Sel Fin. rewrite vote_Some. unfold vote_tables.
  rewrite Sel, Fin. reflexivity.
Qed.

(** C4.  [end] of a poll returns; from then on, whatever is called on the
    database, [is_finished] is true, every [vote] on the poll returns
    without an error and without changing the database, for any voter and
    any index, and another [end] changes nothing either. *)
Theorem end_is_final (w : World) (p : Poll) :
  reachable w -> In p (live w) ->
  eval (end_ p) (store w) = Ok tt
  /\ forall w',
       steps (mkWorld (exec (end_ p) (store w)) (live w)) w' ->
       eval (is_finished p) (store w') = Ok true
       /\ (forall u x, vote p u x (store w') = (Ok tt, store w'))
       /\ (forall u x q v i,
             eval (votes q v) (exec (vote p u x) (store w'))
             = eval (votes q v) (store w')
             /\ eval (count_votes q i) (exec (vote p u x) (store w'))
                = eval (count_votes q i) (store w')
             /\ eval (num_votes q) (exec (vote p u x) (store w'))
                = eval (num_votes q) (store w'))
       /\ end_ p (store w') = (Ok tt, store w').
Proof.
  intros Rw Hp.
  destruct (reachable_live w p Rw Hp) as (t & St & W & Cur).
  destruct (current_row t p Cur) as (row & Sel & _).
  rewrite St. split; [reflexivity|]. intros w' Sts.
  assert (R1 : reachable (mkWorld (exec (end_ p) (Some t)) (live w))).
  { apply (steps_step _ w); [exact Rw|]. rewrite <- St.
    now apply step_end. }
  assert (F1 : finished_at p (exec (end_ p) (Some t))).
  { exists (update_finished (id p) t), (set_finished row).
    split; [reflexivity|]. split; [|reflexivity].
    now rewrite select_poll_update, Sel, Z.eqb_refl. }
  pose proof (steps_finished _ w' p Sts F1) as (t' & row' & E' & Sel' & Fin').
  pose proof (steps_trans _ _ _ R1 Sts) as Rw'.
  pose proof (reachable_existing_wf w' Rw') as W'.
  rewrite E' in *. simpl in W'.
  assert (V : forall u x, vote p u x (Some t') = (Ok tt, Some t'))
    by (intros u x; now apply (finished_vote p u x t' row')).
  split; [|split; [exact V|split]].
  - unfold eval. rewrite is_finished_Some, Sel', Fin'. reflexivity.
  - intros u x q v i. unfold exec. rewrite V. simpl. auto.
  - rewrite end_Some. now rewrite (update_finished_again _ t' row').
Qed.

Lemma end_is_final_witness :
  vote lunch_poll "bob" 7 (store w_ended) = (Ok tt, store w_ended)
  /\ eval (is_finished lunch_poll) (store w_ended) = Ok true.
Proof.
  destruct (end_is_final w_bob12 lunch_poll reachable_w_bob12 live_lunch)
    as [_ H].
  destruct (H w_ended (steps_refl _)) as (F & V & _).
  split; [apply V | exact F].
Defined.

(** ** Loading (C7) *)


Lemma select_poll_None i t :
  select_poll i t = None <->
  forall r, In r (tPolls t) -> Polls.poll_id r <> i.
Proof.
  unfold select_poll. split.
  - intros E r Hr. apply (find_none _ _ E) in Hr. now apply Z.eqb_neq.
  - intros H. destruct (find _ (tPolls t)) as [r|] eqn:F; [|reflexivity].
    apply find_In_key in F as [Hin E]. exfalso. exact (H r Hin E).
Qed.

Lemma Poll_load_true i db : Poll_load true i db = load i db.
Proof. reflexivity. Qed.

Lemma Poll_load_false i db : Poll_load false i db = (Raise sqlite3_Error, db).
Proof. reflexivity. Qed.




(** ** Tallies (C8, C9, C10) *)

Lemma filter_andb {A} (f g : A -> bool) (l : list A) :
  filter (fun x => f x && g x) l = filter g (filter f l).
Proof.
  induction l as [|x l IH]; simpl; [reflexivity|].
  destruct (f x); simpl; [destruct (g x); now rewrite IH | exact IH].
Qed.

Lemma select_votes_of_voter i u t :
  select_votes_of i u t
  = filter (fun r => String.eqb (Votes.voter r) u) (select_votes i t).
Proof. apply filter_andb. Qed.

Lemma length_filter_split {A} (f g h : A -> bool) (l : list A) :
  (forall x, In x l ->
     (if h x then 1 else 0) = (if f x then 1 else 0) + (if g x then 1 else 0))
  %nat ->
  length (filter h l) = (length (filter f l) + length (filter g l))%nat.
Proof.
  induction l as [|x l IH]; simpl; intros H; [reflexivity|].
  pose proof (H x (or_introl eq_refl)) as Hx.
  assert (IH' := IH (fun y Hy => H y (or_intror Hy))).
  destruct (h x), (f x), (g x); simpl; lia.
Qed.

Lemma sum_counts_Some p n t :
  (n <= length (vote_options p))%nat ->
  sum_counts p n (Some t) = (Ok (length (votes_below (id p) n t)), Some t).
Proof.
  induction n as [|n IH]; intros Hn.
  - simpl. unfold ret, votes_below. f_equal. f_equal.
    rewrite filter_none; [reflexivity|].
    intros r _. apply andb_false_iff. right. apply andb_false_iff.
    destruct (Z.leb_spec 0 (Votes.vote r)); [right|left; reflexivity].
    apply Z.ltb_ge. simpl. assumption.
  - cbn [sum_counts]. unfold bind at 1.
    rewrite count_votes_Some, binds_vote_valid
      by (unfold valid_option; lia).
    unfold bind at 1. rewrite IH by lia. unfold ret. f_equal. f_equal.
    unfold votes_below, select_votes_for. symmetry.
    apply length_filter_split. intros r _.
    rewrite Nat2Z.inj_succ.
    destruct (Votes.poll_id r =? id p); cbn [andb]; [|reflexivity].
    destruct (Z.eqb_spec (Votes.vote r) (Z.of_nat n)),
      (Z.leb_spec 0 (Votes.vote r)),
      (Z.ltb_spec (Votes.vote r) (Z.succ (Z.of_nat n))),
      (Z.ltb_spec (Votes.vote r) (Z.of_nat n)); cbn [andb]; lia.
Qed.

Lemma votes_below_all p t :
  wf t -> current t p ->
  votes_below (id p) (length (vote_options p)) t = select_votes (id p) t.
Proof.
  intros W Cur. destruct (current_row t p Cur) as (_ & _ & _ & _ & _ & Hlen).
  unfold votes_below, select_votes. apply filter_ext_in. intros r Hr.
  destruct (Z.eqb_spec (Votes.poll_id r) (id p)) as [E|N]; [|reflexivity].
  pose proof (wf_range t W r Hr) as R. rewrite E, <- Hlen in R. simpl.
  apply andb_true_iff. split; [apply Z.leb_le | apply Z.ltb_lt]; lia.
Qed.

Lemma count_into_keys u g k :
  In k (map fst (count_into u g)) <-> k = u \/ In k (map fst g).
Proof.
  induction g as [|[u' c] g IH]; simpl.
  - split; [intros [<-|[]]; auto | intros [->|[]]; auto].
  - destruct (String.eqb_spec u' u) as [->|N]; simpl.
    + intuition auto.
    + rewrite IH. intuition auto.
Qed.

Lemma group_keys rows k :
  In k (map fst (group_by_voter rows)) <-> In k (map Votes.voter rows).
Proof.
  induction rows as [|r rows IH]; simpl; [tauto|].
  rewrite count_into_keys, IH. split; intros [H|H]; auto.
Qed.

Lemma length_count_into u g :
  length (count_into u g)
  = if in_dec string_dec u (map fst g) then length g else S (length g).
Proof.
  induction g as [|[u' c] g IH]; simpl; [reflexivity|].
  destruct (String.eqb_spec u' u) as [->|N]; simpl.
  - destruct (string_dec u u); [reflexivity | congruence].
  - rewrite IH. destruct (string_dec u' u); [congruence|].
    destruct (in_dec string_dec u (map fst g)); reflexivity.
Qed.

Lemma length_groups_le rows :
  (length (group_by_voter rows) <= length rows)%nat.
Proof.
  induction rows as [|r rows IH]; simpl; [lia|].
  rewrite length_count_into. destruct (in_dec _ _ _); lia.
Qed.

Lemma length_groups_eq rows :
  length (group_by_voter rows) = length rows <->
  NoDup (map Votes.voter rows).
Proof.
  induction rows as [|r rows IH]; simpl.
  - split; [constructor | reflexivity].
  - rewrite length_count_into, NoDup_cons_iff.
    pose proof (length_groups_le rows) as L.
    destruct (in_dec string_dec (Votes.voter r)
                (map fst (group_by_voter rows))) as [I|N].
    + apply group_keys in I. split; [lia | tauto].
    + rewrite group_keys in N. rewrite <- IH. split; [intros E|intros [_ E]].
      * split; [assumption | lia].
      * lia.
Qed.

Lemma count_occ_voter u rows :
  count_occ string_dec (map Votes.voter rows) u
  = length (filter (fun r => String.eqb (Votes.voter r) u) rows).
Proof.
  induction rows as [|r rows IH]; simpl; [reflexivity|].
  destruct (string_dec (Votes.voter r) u) as [E|N].
  - rewrite (proj2 (String.eqb_eq _ _) E). simpl. now rewrite IH.
  - rewrite (proj2 (String.eqb_neq _ _) N). exact IH.
Qed.

Lemma one_vote_each p t :
  NoDup (map Votes.voter (select_votes (id p) t)) <->
  forall u, held p u t <> [] -> length (held p u t) = 1%nat.
Proof.
  rewrite (NoDup_count_occ string_dec). split; intros H u.
  - specialize (H u). rewrite count_occ_voter, <- select_votes_of_voter in H.
    unfold held. rewrite length_map. intros N.
    destruct (select_votes_of (id p) u t); simpl in *; [congruence | lia].
  - rewrite count_occ_voter, <- select_votes_of_voter.
    specialize (H u). unfold held in H. rewrite length_map in H.
    destruct (select_votes_of (id p) u t); simpl in *; [lia|].
    rewrite H; [lia | discriminate].
Qed.

(** C8.  In a reachable state, [num_votes()] is the sum of
    [count_votes(i)] over the options of the poll, [num_voters()] is at
    most [num_votes()], and they are equal iff every voter who holds a
    record holds exactly one. *)
Theorem tallies_add_up (w : World) (p : Poll) :
  reachable w -> In p (live w) ->
  exists nv nr,
    eval (num_votes p) (store w) = Ok nv
    /\ eval (num_voters p) (store w) = Ok nr
    /\ eval (sum_counts p (length (vote_options p))) (store w) = Ok nv
    /\ (nr <= nv)%nat
    /\ (nr = nv <->
        forall u hs,
          eval (votes p u) (store w) = Ok hs -> hs <> [] ->
          length hs = 1%nat).
Proof.
  intros Rw Hp.
  destruct (reachable_live w p Rw Hp) as (t & St & W & Cur).
  rewrite St. unfold eval.
  exists (length (select_votes (id p) t)),
         (length (group_by_voter (select_votes (id p) t))).
  split; [reflexivity|]. split; [reflexivity|]. split; [|split].
  - rewrite sum_counts_Some by apply Nat.le_refl. simpl.
    now rewrite votes_below_all.
  - apply length_groups_le.
  - rewrite length_groups_eq, one_vote_each. split.
    + intros H u hs Hv. rewrite votes_Some in Hv. simpl in Hv.
      injection Hv as <-. apply H.
    + intros H u. apply (H u). reflexivity.
Qed.

Lemma tallies_add_up_witness :
  exists nv nr,
    eval (num_votes lunch_poll) (store w_bob12) = Ok nv
    /\ eval (num_voters lunch_poll) (store w_bob12) = Ok nr
    /\ (nr <= nv)%nat.
Proof.
  destruct (tallies_add_up w_bob12 lunch_poll reachable_w_bob12 live_lunch)
    as (nv & nr & E1 & E2 & _ & L & _).
  exists nv, nr. auto.
Defined.

Lemma NoDup_map_in {A B} (f : A -> B) (l : list A) :
  NoDup l ->
  (forall a b, In a l -> In b l -> f a = f b -> a = b) ->
  NoDup (map f l).
Proof.
  induction l as [|x l IH]; simpl; intros ND Inj; [constructor|].
  apply NoDup_cons_iff in ND as [Hx ND]. constructor.
  - intros H. apply in_map_iff in H as (y & E & Hy).
    assert (y = x) by (apply Inj; auto). subst. auto.
  - apply IH; auto.
Qed.

Lemma In_voters i x u t :
  In u (map Votes.voter (select_votes_for i x t)) <->
  In (Votes.mk i u x) (tVotes t).
Proof.
  unfold select_votes_for. rewrite in_map_iff. split.
  - intros (r & E & Hr). apply filter_In in Hr as [Hr G].
    apply andb_true_iff in G as [G1 G2]. apply Z.eqb_eq in G1, G2.
    destruct r as [i' u' x']; simpl in *. now subst.
  - intros H. exists (Votes.mk i u x). split; [reflexivity|].
    apply filter_In. split; [assumption|]. simpl. now rewrite !Z.eqb_refl.
Qed.

Lemma NoDup_voters i x t :
  NoDup (tVotes t) -> NoDup (map Votes.voter (select_votes_for i x t)).
Proof.
  intros ND. apply NoDup_map_in; [now apply NoDup_filter|].
  intros a b Ha Hb E. unfold select_votes_for in *.
  apply filter_In in Ha as [_ Ga]. apply filter_In in Hb as [_ Gb].
  apply andb_true_iff in Ga as [A1 A2]. apply andb_true_iff in Gb as [B1 B2].
  apply Z.eqb_eq in A1, A2, B1, B2.
  destruct a, b; simpl in *. congruence.
Qed.

Lemma NoDup_held p u t : NoDup (tVotes t) -> NoDup (held p u t).
Proof.
  intros ND. apply NoDup_map_in; [now apply NoDup_filter|].
  intros a b Ha Hb E. unfold select_votes_of in *.
  apply filter_In in Ha as [_ Ga]. apply filter_In in Hb as [_ Gb].
  apply andb_true_iff in Ga as [A1 A2]. apply andb_true_iff in Gb as [B1 B2].
  apply Z.eqb_eq in A1, B1. apply String.eqb_eq in A2, B2.
  destruct a, b; simpl in *. congruence.
Qed.




(** C10.  In a reachable state the queries are views of one ledger: for
    an option index [i] (an index of an option, or any 64-bit integer) a
    voter is in [voters(i)] iff [i] is in [votes(voter)], neither list
    repeats an entry, and [count_votes(i)] is the length of [voters(i)]. *)
Theorem views_agree (w : World) (p : Poll) (u : string) (i : Z) :
  reachable w -> In p (live w) ->
  sqlite_int i = true \/ valid_option p i ->
  exists vs hs n,
    eval (voters p i) (store w) = Ok vs
    /\ eval (votes p u) (store w) = Ok hs
    /\ eval (count_votes p i) (store w) = Ok n
    /\ (In u vs <-> In i hs)
    /\ NoDup vs /\ NoDup hs
    /\ n = length vs.
Proof.
  intros Rw Hp B.
  destruct (reachable_live w p Rw Hp) as (t & St & W & Cur).
  assert (Hb : binds_vote p i = true)
    by (destruct B; [now apply binds_vote_sqlite_int
                    | now apply binds_vote_valid]).
  rewrite St. unfold eval.
  rewrite voters_Some, votes_Some, count_votes_Some, Hb. simpl.
  exists (map Votes.voter (select_votes_for (id p) i t)), (held p u t),
         (length (select_votes_for (id p) i t)).
  split; [reflexivity|]. split; [reflexivity|]. split; [reflexivity|].
  split; [|split; [|split]].
  - now rewrite In_voters, In_held.
  - apply NoDup_voters, W.
  - apply NoDup_held, W.
  - now rewrite length_map.
Qed.

Lemma views_agree_witness :
  exists vs hs,
    eval (voters lunch_poll 2) (store w_bob12) = Ok vs
    /\ eval (votes lunch_poll "bob") (store w_bob12) = Ok hs
    /\ (In "bob"%string vs <-> In 2 hs).
Proof.
  destruct (views_agree w_bob12 lunch_poll "bob" 2 reachable_w_bob12
              live_lunch (or_introl eq_refl))
    as (vs & hs & n & E1 & E2 & _ & I & _).
  exists vs, hs. auto.
Defined.

(** * Further properties of the ledger *)

(** ** Rowids and clamped ceilings *)

Lemma fold_max_in (l : list Z) (a : Z) : In (fold_left Z.max l a) (a :: l).
Proof.
  revert a. induction l as [|y l IH]; intros a; cbn [fold_left].
  - now left.
  - destruct (IH (Z.max a y)) as [E|H].
    + rewrite <- E. destruct (Z.max_spec a y) as [[_ M]|[_ M]]; rewrite M.
      * right. now left.
      * now left.
    + right. now right.
Qed.

Lemma next_rowid_seq (rows : list Polls.row) :
  map Polls.poll_id rows = map Z.of_nat (seq 1 (length rows)) ->
  next_rowid rows = Z.of_nat (S (length rows)).
Proof.
  intros Ids. destruct rows as [|r rows]; [reflexivity|].
  assert (Hi : forall x, In x (map Polls.poll_id (r :: rows)) ->
                         x <= Z.of_nat (length (r :: rows))).
  { intros x Hx. rewrite Ids in Hx. apply in_map_iff in Hx as (k & <- & Hk).
    apply in_seq in Hk. lia. }
  assert (Hn : In (Z.of_nat (length (r :: rows)))
                 (map Polls.poll_id (r :: rows))).
  { rewrite Ids. apply in_map, in_seq. simpl. lia. }
  cbn [next_rowid].
  pose proof (fold_max_in (map Polls.poll_id rows) (Polls.poll_id r)) as M.
  destruct (fold_max_ge (map Polls.poll_id rows) (Polls.poll_id r)) as [G1 G2].
  specialize (Hi _ M).
  assert (Z.of_nat (length (r :: rows))
          <= fold_left Z.max (map Polls.poll_id rows) (Polls.poll_id r)).
  { destruct Hn as [<-|Hn]; [exact G1 | exact (G2 _ Hn)]. }
  lia.
Qed.

Lemma wf_polls_empty : wf_polls (mkTables [] [] []).
Proof. constructor; simpl; [reflexivity | tauto]. Qed.

Lemma wf_polls_frame t t' :
  tPolls t' = tPolls t -> tVoteOptions t' = tVoteOptions t ->
  wf_polls t -> wf_polls t'.
Proof.
  intros EP EO [I M]. constructor; unfold option_rows; rewrite ?EP, ?EO; auto.
Qed.

Lemma wf_polls_update i t : wf_polls t -> wf_polls (update_finished i t).
Proof.
  intros [I M]. constructor; unfold update_finished; simpl.
  - now rewrite map_poll_id_update, length_map.
  - intros r Hr. apply in_map_iff in Hr as (r0 & <- & Hr0).
    specialize (M r0 Hr0). unfold option_rows in *; simpl.
    destruct (Polls.poll_id r0 =? i); exact M.
Qed.

Lemma length_numbered_options i names : forall n,
  length (numbered_options i n names) = length names.
Proof.
  induction names as [|name names IH]; intros n; simpl; [reflexivity|].
  now rewrite IH.
Qed.

Lemma wf_polls_create c m o s pb mv t :
  wf_polls t -> wf_polls (create_tables_of c m o s pb mv t).
Proof.
  intros [I M]. constructor.
  - simpl. rewrite map_app, length_app, Nat.add_1_r, seq_S, map_app, <- I.
    simpl. now rewrite (next_rowid_seq _ I).
  - intros r Hr. rewrite option_rows_create, length_app.
    simpl in Hr. apply in_app_iff in Hr as [Hr|[<-|[]]].
    + specialize (M r Hr). lia.
    + simpl. rewrite Z.eqb_refl, length_numbered_options.
      unfold clamp_votes.
      assert (1 <= length (default_options o))%nat
        by (destruct o; simpl; lia).
      lia.
Qed.

Lemma step_wf_polls w w' :
  step w w' -> wf_polls (existing (store w)) -> wf_polls (existing (store w')).
Proof.
  intros St W. destruct St as [w c m o s pb mv mm | w i | w p u v Hp | w p Hp];
    unfold exec; simpl.
  - subst mm. rewrite create_run. simpl. now apply wf_polls_create.
  - unfold load. destruct (store w) as [t|]; [rewrite init_Some|]; exact W.
  - destruct (store w) as [t|]; [|exact W]. rewrite vote_Some. simpl.
    destruct (vote_tables_frame p u v t) as [E1 E2].
    now apply (wf_polls_frame t).
  - destruct (store w) as [t|]; [|exact W]. rewrite end_Some. simpl.
    now apply wf_polls_update.
Qed.

Lemma steps_wf_polls w w' :
  steps w w' -> wf_polls (existing (store w)) -> wf_polls (existing (store w')).
Proof.
  intros St. induction St as [|w1 w2 w3 St IH S3]; [auto|].
  intros W. apply (step_wf_polls w2 w3); auto.
Qed.

Lemma reachable_wf_polls w : reachable w -> wf_polls (existing (store w)).
Proof.
  intros Rw. apply (steps_wf_polls init_world w Rw). apply wf_polls_empty.
Qed.

(** ** Construction: fresh ids, empty ledger, stable attributes *)

Lemma polls_count_key t i :
  wf_polls t ->
  (In i (map Polls.poll_id (tPolls t))
   <-> 1 <= i <= Z.of_nat (length (tPolls t))).
Proof.
  intros [I _]. rewrite I, in_map_iff. split.
  - intros (k & <- & Hk). apply in_seq in Hk. lia.
  - intros H. exists (Z.to_nat i). split; [lia|]. apply in_seq. lia.
Qed.

Lemma init_tables_Ok_iff i t :
  wf_polls t ->
  ((exists p, init_tables i t = Ok p)
   <-> 1 <= i <= Z.of_nat (length (tPolls t))).
Proof.
  intros W. rewrite <- (polls_count_key t i W). unfold init_tables. split.
  - intros (p & H). destruct (binds_id i t); [|discriminate].
    destruct (select_option_names i t); [discriminate|].
    destruct (select_poll i t) as [row|] eqn:Sel; [|discriminate].
    apply find_In_key in Sel as [Hin <-]. now apply in_map.
  - intros H. rewrite (binds_id_key i t H).
    apply in_map_iff in H as (r & <- & Hr).
    pose proof (wf_max_votes t W r Hr) as M.
    rewrite <- length_select_option_names in M.
    destruct (select_option_names (Polls.poll_id r) t) as [|n ns];
      [simpl in M; lia|].
    destruct (select_poll (Polls.poll_id r) t) as [row|] eqn:Sel; [eauto|].
    exfalso. rewrite select_poll_None in Sel. exact (Sel r Hr eq_refl).
Qed.

(** X1.  Poll ids are handed out as 1, 2, 3, ...: in a reachable state
    [load(i)] returns a poll exactly for the ids from 1 to the number of
    polls created, and [create] returns the poll with the next id. *)
Theorem ids_are_consecutive (w : World) :
  reachable w ->
  (forall i,
     (exists p, eval (load i) (store w) = Ok p)
     <-> 1 <= i <= Z.of_nat (polls_count (store w)))
  /\ (forall c m o s pb mv,
        exists p,
          eval (create c m o s pb mv) (store w) = Ok p
          /\ id p = Z.of_nat (polls_count (store w)) + 1
          /\ polls_count (exec (create c m o s pb mv) (store w))
             = S (polls_count (store w))).
Proof.
  intros Rw. pose proof (reachable_wf_polls w Rw) as WP.
  pose proof (reachable_existing_wf w Rw) as W. split.
  - intros i. unfold eval, load, polls_count.
    destruct (store w) as [t|]; simpl in *.
    + rewrite init_Some. simpl. now apply init_tables_Ok_iff.
    + split; [intros (p & H); discriminate | lia].
  - intros c m o s pb mv. unfold eval, exec.
    rewrite (create_created _ _ _ _ _ _ _ W). simpl.
    eexists. split; [reflexivity|]. simpl. unfold polls_count. simpl.
    rewrite (next_rowid_seq _ (wf_ids _ WP)), length_app. simpl. lia.
Qed.

Lemma ids_are_consecutive_witness :
  (exists p, eval (load 1) (store w_bob12) = Ok p)
  /\ ~ (exists p, eval (load 2) (store w_bob12) = Ok p).
Proof.
  destruct (ids_are_consecutive w_bob12 reachable_w_bob12) as [H _].
  split.
  - apply (proj2 (H 1)). unfold polls_count. simpl. lia.
  - intros E. apply (proj1 (H 2)) in E. unfold polls_count in E.
    simpl in E. lia.
Defined.

Lemma current_shape t p :
  wf_polls t -> current t p ->
  vote_options p <> []
  /\ 1 <= max_votes p <= Z.of_nat (length (vote_options p)).
Proof.
  intros WP Cur.
  destruct (current_row t p Cur) as (row & _ & Hin & Hid & Hmax & Hlen).
  pose proof (wf_max_votes t WP row Hin) as M.
  rewrite Hid, Hmax, <- Hlen in M. split; [|exact M].
  intros E. rewrite E in M. simpl in M. lia.
Qed.

Lemma live_max_votes w p :
  reachable w -> In p (live w) -> 1 <= max_votes p.
Proof.
  intros Rw Hp. pose proof (reachable_wf_polls w Rw) as WP.
  destruct (reachable_live w p Rw Hp) as (t & St & _ & Cur).
  rewrite St in WP. simpl in WP.
  now destruct (current_shape t p WP Cur) as [_ [M _]].
Qed.

(** X2.  Every poll object in use, and every poll [load] returns, has at
    least one option and a [max_votes] between 1 and the number of its
    options. *)
Theorem poll_shape (w : World) (p : Poll) :
  reachable w ->
  In p (live w) \/ (exists i, eval (load i) (store w) = Ok p) ->
  vote_options p <> []
  /\ 1 <= max_votes p <= Z.of_nat (length (vote_options p)).
Proof.
  intros Rw H. pose proof (reachable_wf_polls w Rw) as WP.
  assert (Cur : exists t, store w = Some t /\ current t p).
  { destruct H as [Hp|(i & E)].
    - destruct (reachable_live w p Rw Hp) as (t & St & _ & Cur). eauto.
    - unfold eval, load in E. destruct (store w) as [t|]; [|discriminate].
      rewrite init_Some in E. simpl in E. exists t.
      split; [reflexivity | now apply (init_tables_current i)]. }
  destruct Cur as (t & St & Cur). rewrite St in WP. simpl in WP.
  now apply (current_shape t).
Qed.

Lemma poll_shape_witness :
  1 <= max_votes lunch_poll
    <= Z.of_nat (length (vote_options lunch_poll)).
Proof.
  apply (poll_shape w_bob12 lunch_poll reachable_w_bob12).
  left. exact live_lunch.
Defined.

(** X3.  The attributes of a poll never change: an object handed out by
    [create] or [load] is what [load] of its id returns in every later
    state, whatever is called in between. *)
Theorem attributes_are_stable (w w' : World) (p : Poll) :
  reachable w -> In p (live w) -> steps w w' ->
  load (id p) (store w') = (Ok p, store w').
Proof.
  intros Rw Hp Sts.
  pose proof (steps_trans _ _ _ Rw Sts) as Rw'.
  pose proof (steps_live _ _ _ Sts Hp) as Hp'.
  destruct (reachable_live w' p Rw' Hp') as (t & St & _ & Cur).
  rewrite St. unfold load. rewrite init_Some. now rewrite Cur.
Qed.

Lemma steps_lunch_ended : steps w_lunch w_ended.
Proof.
  apply (steps_step _ w_bob12);
    [|exact (step_end w_bob12 lunch_poll live_lunch)].
  apply (steps_step _ w_bob1);
    [|exact (step_vote w_bob1 lunch_poll "bob" 2 live_lunch)].
  apply (steps_step _ w_lunch); [apply steps_refl|].
  exact (step_vote w_lunch lunch_poll "bob" 1 live_lunch).
Qed.

Lemma attributes_are_stable_witness :
  load 1 (store w_ended) = (Ok lunch_poll, store w_ended).
Proof.
  exact (attributes_are_stable w_lunch w_ended lunch_poll reachable_w_lunch
           live_lunch steps_lunch_ended).
Defined.

Lemma select_votes_fresh t :
  wf t -> select_votes (next_rowid (tPolls t)) t = [].
Proof.
  intros W. apply filter_none. intros r Hr. apply Z.eqb_neq. intros E.
  apply (next_rowid_not_key (tPolls t)). rewrite <- E.
  now apply (wf_votes_fk t W).
Qed.

Lemma select_votes_for_votes i x t :
  select_votes_for i x t
  = filter (fun r => Votes.vote r =? x) (select_votes i t).
Proof. apply filter_andb. Qed.

(** X4.  [create] makes a new poll without any votes: the poll it returns
    is not finished, has no vote and no voter, for every option (and every
    64-bit index) a count of 0 and no voters, and its id is the id of no
    object handed out before. *)
Theorem created_poll_is_empty (w : World) (c m : string) (o : list string)
    (s pb : bool) (mv : Z) :
  reachable w ->
  exists p,
    eval (create c m o s pb mv) (store w) = Ok p
    /\ (forall q, In q (live w) -> id q <> id p)
    /\ eval (is_finished p) (exec (create c m o s pb mv) (store w)) = Ok false
    /\ eval (num_votes p) (exec (create c m o s pb mv) (store w)) = Ok 0%nat
    /\ eval (num_voters p) (exec (create c m o s pb mv) (store w)) = Ok 0%nat
    /\ (forall u,
          eval (votes p u) (exec (create c m o s pb mv) (store w)) = Ok [])
    /\ (forall i, sqlite_int i = true \/ valid_option p i ->
          eval (count_votes p i) (exec (create c m o s pb mv) (store w))
          = Ok 0%nat
          /\ eval (voters p i) (exec (create c m o s pb mv) (store w))
             = Ok []).
Proof.
  intros Rw. pose proof (reachable_existing_wf w Rw) as W.
  unfold eval, exec. rewrite (create_created _ _ _ _ _ _ _ W). cbn [fst snd].
  eexists. split; [reflexivity|]. cbn [id].
  set (t := existing (store w)) in *.
  assert (V : select_votes (next_rowid (tPolls t))
                (create_tables_of c m o s pb mv t) = [])
    by (apply (select_votes_fresh t W)).
  split; [|split; [|split; [|split; [|split]]]].
  - intros q Hq E.
    destruct (reachable_live w q Rw Hq) as (t0 & St & _ & Cur).
    destruct (current_row t0 q Cur) as (row & _ & Hin & Hid & _).
    subst t. rewrite St in *. simpl in *.
    apply (next_rowid_not_key (tPolls t0)). rewrite <- E, <- Hid.
    now apply in_map.
  - rewrite is_finished_Some. cbn [fst id].
    now rewrite select_poll_created.
  - unfold num_votes, bind, select, ret. cbn [fst id]. now rewrite V.
  - unfold num_voters, bind, select, ret. cbn [fst id]. now rewrite V.
  - intros u. rewrite votes_Some. cbn [fst id].
    now rewrite select_votes_of_voter, V.
  - intros i B. rewrite count_votes_Some, voters_Some. cbn [fst id].
    assert (Hb : binds_vote
                   (mkPoll (next_rowid (tPolls t)) c m (default_options o)
                      s pb (clamp_votes mv (default_options o))) i = true)
      by (destruct B; [now apply binds_vote_sqlite_int
                      | now apply binds_vote_valid]).
    now rewrite Hb, select_votes_for_votes, V.
Qed.

Lemma created_poll_is_empty_witness :
  exists p,
    eval yesno (store w_bob12) = Ok p
    /\ id p <> id lunch_poll
    /\ eval (num_votes p) (exec yesno (store w_bob12)) = Ok 0%nat.
Proof.
  destruct (created_poll_is_empty w_bob12 "carol" "Ship it?" [] false false 1
              reachable_w_bob12) as (p & E & F & _ & N & _).
  exists p. split; [exact E|]. split; [|exact N].
  intros H. exact (F lunch_poll live_lunch (eq_sym H)).
Defined.

(** X5.  [create] leaves every other poll alone: for an object in use, its
    attributes, its finished flag, the votes of every voter and all its
    tallies are the same after a [create] as before. *)
Theorem create_leaves_polls_alone (w : World) (q : Poll) (c m : string)
    (o : list string) (s pb : bool) (mv : Z) :
  reachable w -> In q (live w) ->
  eval (load (id q)) (exec (create c m o s pb mv) (store w)) = Ok q
  /\ eval (is_finished q) (exec (create c m o s pb mv) (store w))
     = eval (is_finished q) (store w)
  /\ eval (num_votes q) (exec (create c m o s pb mv) (store w))
     = eval (num_votes q) (store w)
  /\ eval (num_voters q) (exec (create c m o s pb mv) (store w))
     = eval (num_voters q) (store w)
  /\ (forall u,
        eval (votes q u) (exec (create c m o s pb mv) (store w))
        = eval (votes q u) (store w))
  /\ (forall i,
        eval (count_votes q i) (exec (create c m o s pb mv) (store w))
        = eval (count_votes q i) (store w)
        /\ eval (voters q i) (exec (create c m o s pb mv) (store w))
           = eval (voters q i) (store w)).
Proof.
  intros Rw Hq.
  destruct (reachable_live w q Rw Hq) as (t & St & W & Cur).
  destruct (current_row t q Cur) as (row & Sel & _).
  unfold eval, exec, load. rewrite St, create_run. cbn [snd existing].
  split; [|split; [|split; [|split; [|split]]]].
  - rewrite init_Some. simpl. now apply current_create.
  - rewrite !is_finished_Some. simpl.
    assert (E : select_poll (id q) (create_tables_of c m o s pb mv t)
                = Some row)
      by (unfold select_poll in *; simpl; now apply find_app_Some).
    now rewrite E, Sel.
  - reflexivity.
  - reflexivity.
  - intros u. reflexivity.
  - intros i. rewrite !count_votes_Some, !voters_Some. split; reflexivity.
Qed.

Lemma create_leaves_polls_alone_witness :
  eval (votes lunch_poll "bob") (exec yesno (store w_bob12)) = Ok [1; 2].
Proof.
  destruct (create_leaves_polls_alone w_bob12 lunch_poll "carol" "Ship it?"
              [] false false 1 reachable_w_bob12 live_lunch)
    as (_ & _ & _ & _ & V & _).
  exact (eq_trans (V "bob"%string) eq_refl).
Defined.

(** ** What a vote leaves alone *)

Lemma filter_filter_kept {A} (f g : A -> bool) (l : list A) :
  (forall x, In x l -> f x = false -> g x = false) ->
  filter g (filter f l) = filter g l.
Proof.
  induction l as [|x l IH]; simpl; intros H; [reflexivity|].
  destruct (f x) eqn:F; simpl.
  - rewrite IH; auto.
  - rewrite (H x (or_introl eq_refl) F). auto.
Qed.

Lemma vote_tables_other (g : Votes.row -> bool) p u x t :
  (forall r, Votes.poll_id r = id p -> Votes.voter r = u -> g r = false) ->
  filter g (tVotes (snd (vote_tables p u x t))) = filter g (tVotes t).
Proof.
  intros G.
  assert (D1 : forall l y,
             filter g
               (filter (fun r => negb (Votes.eqb r (Votes.mk (id p) u y))) l)
             = filter g l).
  { intros l y. apply filter_filter_kept. intros r _ E.
    apply negb_false_iff, Votes_eqb_eq in E. subst r. now apply G. }
  assert (D2 : forall l,
             filter g
               (filter (fun r => negb ((Votes.poll_id r =? id p)
                                       && String.eqb (Votes.voter r) u)) l)
             = filter g l).
  { intros l. apply filter_filter_kept. intros r _ E.
    apply negb_false_iff, andb_true_iff in E as [E1 E2].
    apply Z.eqb_eq in E1. apply String.eqb_eq in E2. now apply G. }
  assert (N : g (Votes.mk (id p) u x) = false) by now apply G.
  unfold vote_tables.
  destruct (select_poll (id p) t) as [row|]; [|reflexivity].
  destruct (Polls.finished row =? 1); [reflexivity|].
  destruct ((x <? 0) || (x >=? Z.of_nat (length (vote_options p))));
    [reflexivity|].
  cbv zeta. destruct (existsb (Z.eqb x) _); [apply D1|].
  destruct (_ >=? max_votes p).
  - destruct (max_votes p =? 1); [|reflexivity].
    unfold insert_vote, delete_votes_of; simpl.
    now rewrite filter_app, D1, D2; simpl; rewrite N, app_nil_r.
  - unfold insert_vote; simpl.
    now rewrite filter_app, D1; simpl; rewrite N, app_nil_r.
Qed.

Lemma select_votes_of_other p u x t q u' :
  id q <> id p \/ u' <> u ->
  select_votes_of (id q) u' (snd (vote_tables p u x t))
  = select_votes_of (id q) u' t.
Proof.
  intros H. unfold select_votes_of. apply vote_tables_other.
  intros r E1 E2. apply andb_false_iff.
  destruct H as [H|H].
  - left. apply Z.eqb_neq. congruence.
  - right. apply String.eqb_neq. congruence.
Qed.

Lemma select_votes_other p u x t q :
  id q <> id p ->
  select_votes (id q) (snd (vote_tables p u x t)) = select_votes (id q) t.
Proof.
  intros H. unfold select_votes. apply vote_tables_other.
  intros r E1 _. apply Z.eqb_neq. congruence.
Qed.

(** X6.  A vote changes nothing but the votes of its voter in its poll:
    the votes of any other voter, and of the same voter in another poll,
    the tallies of every other poll, and the finished flag and the
    attributes of every poll are the same after the call as before. *)
Theorem vote_leaves_others_alone (db : DB) (p : Poll) (u : string) (x : Z)
    (q : Poll) :
  (forall u', id q <> id p \/ u' <> u ->
     eval (votes q u') (exec (vote p u x) db) = eval (votes q u') db)
  /\ (id q <> id p ->
      eval (num_votes q) (exec (vote p u x) db) = eval (num_votes q) db
      /\ eval (num_voters q) (exec (vote p u x) db) = eval (num_voters q) db
      /\ forall i,
           eval (count_votes q i) (exec (vote p u x) db)
           = eval (count_votes q i) db
           /\ eval (voters q i) (exec (vote p u x) db)
              = eval (voters q i) db)
  /\ eval (is_finished q) (exec (vote p u x) db) = eval (is_finished q) db
  /\ (forall i, eval (load i) (exec (vote p u x) db) = eval (load i) db).
Proof.
  unfold eval, exec. destruct db as [t|]; [|repeat split; reflexivity].
  rewrite vote_Some. cbn [snd].
  destruct (vote_tables_frame p u x t) as [EP EO].
  split; [|split; [|split]].
  - intros u' H. rewrite !votes_Some. cbn [fst].
    now rewrite select_votes_of_other.
  - intros H. pose proof (select_votes_other p u x t q H) as E.
    unfold num_votes, num_voters, bind, select, ret. cbn [fst].
    rewrite E. split; [reflexivity|]. split; [reflexivity|].
    intros i. rewrite !count_votes_Some, !voters_Some. cbn [fst].
    now rewrite !select_votes_for_votes, E.
  - rewrite !is_finished_Some. cbn [fst]. unfold select_poll.
    now rewrite EP.
  - intros i. unfold load. rewrite !init_Some. cbn [fst].
    apply init_tables_ext.
    + apply binds_id_keys. now rewrite EP.
    + unfold select_option_names. now rewrite EO.
    + left. unfold select_poll. rewrite EP.
      now destruct (find _ (tPolls t)).
Qed.

Lemma vote_leaves_others_alone_witness :
  eval (votes lunch_poll "bob") (exec (vote yesno2_poll "bob" 0) (store w_two))
  = eval (votes lunch_poll "bob") (store w_two).
Proof.
  destruct (vote_leaves_others_alone (store w_two) yesno2_poll "bob" 0
              lunch_poll) as [H _].
  apply H. left. discriminate.
Defined.

(** ** When a vote fails, and what a voter can hold *)

(** X8.  In a reachable state a voter holds, in a poll in use, distinct
    valid options, and never more than [max_votes] of them. *)
Theorem votes_within_ceiling (w : World) (p : Poll) (u : string) :
  reachable w -> In p (live w) ->
  exists hs,
    eval (votes p u) (store w) = Ok hs
    /\ NoDup hs
    /\ Z.of_nat (length hs) <= max_votes p
    /\ forall x, In x hs -> valid_option p x.
Proof.
  intros Rw Hp.
  destruct (reachable_live w p Rw Hp) as (t & St & W & Cur).
  exists (held p u t). rewrite St. split; [reflexivity|].
  split; [apply NoDup_held, W|].
  split; [now apply (held_ceiling w)|].
  intros x Hx. now apply (held_valid p u x t).
Qed.

Lemma votes_within_ceiling_witness :
  exists hs,
    eval (votes lunch_poll "bob") (store w_bob12) = Ok hs
    /\ Z.of_nat (length hs) <= 2.
Proof.
  destruct (votes_within_ceiling w_bob12 lunch_poll "bob" reachable_w_bob12
              live_lunch) as (hs & E & _ & C & _).
  exists hs. split; [exact E | exact C].
Defined.

(** X9.  On a poll in use [is_finished] returns, and [vote] raises nothing
    but [IndexError] and [NoMoreVotesError]: [IndexError] exactly when the
    poll is unfinished and the index is out of range, [NoMoreVotesError]
    exactly when the poll is unfinished, [max_votes] is above 1, and the
    voter holds [max_votes] options, the valid index not among them. *)
Theorem vote_outcome (w : World) (p : Poll) (u : string) (x : Z) :
  reachable w -> In p (live w) ->
  exists fin hs,
    eval (is_finished p) (store w) = Ok fin
    /\ eval (votes p u) (store w) = Ok hs
    /\ (forall e, eval (vote p u x) (store w) = Raise e ->
          e = IndexError \/ e = NoMoreVotesError)
    /\ (eval (vote p u x) (store w) = Raise IndexError
        <-> fin = false /\ ~ valid_option p x)
    /\ (eval (vote p u x) (store w) = Raise NoMoreVotesError
        <-> fin = false /\ valid_option p x /\ ~ In x hs
            /\ Z.of_nat (length hs) = max_votes p /\ 1 < max_votes p).
Proof.
  intros Rw Hp.
  destruct (reachable_live w p Rw Hp) as (t & St & W & Cur).
  pose proof (held_ceiling w p u t Rw Hp St) as C.
  pose proof (live_max_votes w p Rw Hp) as M1.
  destruct (current_row t p Cur) as (row & Sel & _).
  exists (Polls.finished row =? 1), (held p u t).
  rewrite St. unfold eval. rewrite is_finished_Some, Sel, vote_Some.
  cbn [fst]. split; [reflexivity|]. split; [reflexivity|].
  destruct (Polls.finished row =? 1) eqn:Fin.
  { unfold vote_tables. rewrite Sel, Fin. cbn [fst].
    split; [discriminate|]. split; split; try discriminate;
      intros [F _]; discriminate. }
  assert (Unf : unfinished p t) by (exists row; auto).
  assert (Dv : valid_option p x \/ ~ valid_option p x)
    by (unfold valid_option; lia).
  destruct Dv as [V|V].
  2:{ rewrite (vote_tables_index p u x t Unf V). cbn [fst].
      split; [intros e E; injection E as <-; auto|].
      split; split; auto; try discriminate. intros (_ & V' & _). tauto. }
  destruct (in_dec Z.eq_dec x (held p u t)) as [I|N].
  { rewrite (vote_tables_unvote p u x t Unf V I). cbn [fst].
    split; [discriminate|]. split; split; try discriminate.
    - intros [_ V']. tauto.
    - intros (_ & _ & N & _). tauto. }
  destruct (Z.lt_ge_cases (Z.of_nat (length (held p u t))) (max_votes p))
    as [Lt|Ge].
  { rewrite (vote_tables_insert p u x t Unf V N Lt). cbn [fst].
    split; [discriminate|]. split; split; try discriminate.
    - intros [_ V']. tauto.
    - intros (_ & _ & _ & E & _). lia. }
  destruct (Z.eq_dec (max_votes p) 1) as [One|NotOne].
  { rewrite (vote_tables_replace p u x t Unf V N Ge One). cbn [fst].
    split; [discriminate|]. split; split; try discriminate.
    - intros [_ V']. tauto.
    - intros (_ & _ & _ & _ & L). lia. }
  rewrite (vote_tables_no_more p u x t Unf V N Ge NotOne). cbn [fst].
  split; [intros e E; injection E as <-; auto|].
  split; split; try discriminate; try reflexivity.
  - intros [_ V']. tauto.
  - intros _. split; [reflexivity|]. split; [exact V|]. split; [exact N|].
    split; lia.
Qed.

Lemma vote_outcome_witness :
  eval (vote lunch_poll "bob" 0) (store w_bob12) = Raise NoMoreVotesError.
Proof.
  destruct (vote_outcome w_bob12 lunch_poll "bob" 0 reachable_w_bob12
              live_lunch) as (fin & hs & F & H & _ & _ & N).
  apply (proj2 N). injection F as <-. injection H as <-.
  split; [reflexivity|].
  split; [unfold valid_option; simpl; lia|].
  split; [simpl; intros [E|[E|[]]]; discriminate|].
  split; reflexivity.
Defined.

(** ** The effect of a vote on the tallies *)

Lemma filter_neq_row_id (r : Votes.row) (l : list Votes.row) :
  ~ In r l -> filter (fun x => negb (Votes.eqb x r)) l = l.
Proof.
  induction l as [|y l IH]; simpl; intros H; [reflexivity|].
  destruct (Votes.eqb y r) eqn:E; simpl.
  - apply Votes_eqb_eq in E. subst. exfalso. auto.
  - f_equal. auto.
Qed.

Lemma tVotes_insert_new i u x t :
  ~ In (Votes.mk i u x) (tVotes t) ->
  tVotes (insert_vote i u x t) = tVotes t ++ [Votes.mk i u x].
Proof.
  intros H. unfold insert_vote; simpl. now rewrite filter_neq_row_id.
Qed.

Lemma length_filter_remove (g : Votes.row -> bool) r (l : list Votes.row) :
  NoDup l -> In r l -> g r = true ->
  length (filter g l)
  = S (length (filter g (filter (fun x => negb (Votes.eqb x r)) l))).
Proof.
  induction l as [|y l IH]; simpl; [tauto|].
  intros ND Hr G. apply NoDup_cons_iff in ND as [Hy ND].
  destruct (Votes.eqb y r) eqn:E; simpl.
  - apply Votes_eqb_eq in E. subst y. rewrite G. simpl.
    now rewrite (filter_neq_row_id r l Hy).
  - apply Votes_eqb_neq in E. destruct Hr as [->|Hr]; [congruence|].
    destruct (g y); simpl; rewrite (IH ND Hr G); reflexivity.
Qed.

Lemma filter_remove_other (g : Votes.row -> bool) r (l : list Votes.row) :
  g r = false ->
  filter g (filter (fun x => negb (Votes.eqb x r)) l) = filter g l.
Proof.
  intros G. apply filter_filter_kept. intros y _ E.
  apply negb_false_iff, Votes_eqb_eq in E. now subst.
Qed.

(** X10.  A cast that is admitted with a vote left adds one record: the
    call returns, the voter holds the option besides the ones held before,
    [num_votes()] and [count_votes] of the option grow by one, and
    [count_votes] of every other option is unchanged. *)
Theorem cast_adds_one_vote (db : DB) (p : Poll) (u : string) (x : Z)
    (hs : list Z) :
  eval (is_finished p) db = Ok false ->
  valid_option p x ->
  eval (votes p u) db = Ok hs -> ~ In x hs ->
  Z.of_nat (length hs) < max_votes p ->
  exists nv c,
    eval (num_votes p) db = Ok nv
    /\ eval (count_votes p x) db = Ok c
    /\ eval (vote p u x) db = Ok tt
    /\ eval (num_votes p) (exec (vote p u x) db) = Ok (S nv)
    /\ eval (count_votes p x) (exec (vote p u x) db) = Ok (S c)
    /\ (forall y, y <> x ->
          eval (count_votes p y) (exec (vote p u x) db)
          = eval (count_votes p y) db)
    /\ (exists hs',
          eval (votes p u) (exec (vote p u x) db) = Ok hs'
          /\ Permutation (x :: hs) hs')
    /\ (exists vs,
          eval (voters p x) (exec (vote p u x) db) = Ok vs /\ In u vs).
Proof.
  intros Fin V Hv Hx Room.
  apply is_finished_false in Fin as (t & -> & Unf).
  unfold eval in Hv. rewrite votes_Some in Hv. cbn [fst] in Hv.
  injection Hv as <-. fold (held p u t) in Hx, Room.
  assert (A : ~ In (Votes.mk (id p) u x) (tVotes t))
    by (now rewrite <- In_held).
  pose proof (tVotes_insert_new (id p) u x t A) as E.
  exists (length (select_votes (id p) t)),
         (length (select_votes_for (id p) x t)).
  pose proof (binds_vote_valid p x V) as Hb.
  unfold eval, exec.
  rewrite vote_Some, (vote_tables_insert p u x t Unf V Hx Room). cbn [fst snd].
  rewrite !count_votes_Some, voters_Some, Hb. cbn [fst].
  split; [reflexivity|]. split; [reflexivity|]. split; [reflexivity|].
  split; [|split; [|split; [|split]]].
  - unfold num_votes, bind, select, ret, select_votes. cbn [fst].
    rewrite E, filter_app, length_app. simpl. rewrite Z.eqb_refl. simpl.
    f_equal. lia.
  - unfold select_votes_for.
    rewrite E, filter_app, length_app. simpl. rewrite !Z.eqb_refl. simpl.
    f_equal. lia.
  - intros y Ny. rewrite !count_votes_Some. cbn [fst]. unfold select_votes_for.
    rewrite E, filter_app. simpl.
    rewrite (proj2 (Z.eqb_neq x y)) by congruence.
    now rewrite andb_false_r, app_nil_r.
  - exists (held p u (insert_vote (id p) u x t)). split; [reflexivity|].
    rewrite held_insert_vote, filter_neq_id by assumption.
    apply Permutation_cons_append.
  - exists (map Votes.voter (select_votes_for (id p) x
                               (insert_vote (id p) u x t))).
    split; [reflexivity|]. apply In_voters. rewrite E. apply in_app_iff.
    right. now left.
Qed.

Lemma cast_adds_one_vote_witness :
  eval (num_votes lunch_poll) (exec (vote lunch_poll "bob" 2) (store w_bob1))
  = Ok 2%nat.
Proof.
  destruct (cast_adds_one_vote (store w_bob1) lunch_poll "bob" 2 [1])
    as (nv & c & N & _ & _ & N' & _);
    [reflexivity | unfold valid_option; simpl; lia | reflexivity
     | simpl; intros [E|[]]; discriminate | simpl; lia |].
  injection N as <-. exact N'.
Defined.

Lemma remove_option_perm (x : Z) (l : list Z) :
  NoDup l -> In x l ->
  Permutation l (x :: filter (fun y => negb (y =? x)) l).
Proof.
  induction l as [|y l IH]; simpl; [tauto|].
  intros ND Hx. apply NoDup_cons_iff in ND as [Hy ND].
  destruct (Z.eqb_spec y x) as [->|N]; simpl.
  - now rewrite (filter_neq_id x l Hy).
  - destruct Hx as [->|Hx]; [congruence|].
    eapply perm_trans; [apply perm_skip, IH; assumption | apply perm_swap].
Qed.

Lemma not_In_filter_neq_option (x : Z) (l : list Z) :
  ~ In x (filter (fun y => negb (y =? x)) l).
Proof.
  rewrite filter_In. intros [_ H]. apply negb_true_iff, Z.eqb_neq in H. auto.
Qed.

Lemma select_votes_delete_vote i u x t :
  NoDup (tVotes t) -> In (Votes.mk i u x) (tVotes t) ->
  length (select_votes i t) = S (length (select_votes i (delete_vote i u x t)))
  /\ length (select_votes_for i x t)
     = S (length (select_votes_for i x (delete_vote i u x t)))
  /\ forall y, y <> x ->
       select_votes_for i y (delete_vote i u x t) = select_votes_for i y t.
Proof.
  intros ND Hr. unfold select_votes, select_votes_for, delete_vote; simpl.
  split; [|split].
  - apply length_filter_remove; auto. simpl. apply Z.eqb_refl.
  - apply length_filter_remove; auto. simpl. now rewrite !Z.eqb_refl.
  - intros y Ny. apply filter_remove_other. simpl.
    rewrite (proj2 (Z.eqb_neq x y)) by congruence. apply andb_false_r.
Qed.

(** X11.  An unvote removes one record: on an unfinished poll in use, a
    vote for an option the voter holds lowers [num_votes()] and
    [count_votes] of that option by one, leaves [count_votes] of every
    other option unchanged, and takes just that option out of
    [votes(voter)]. *)
Theorem unvote_removes_one_vote (w : World) (p : Poll) (u : string) (x : Z)
    (hs : list Z) :
  reachable w -> In p (live w) ->
  eval (is_finished p) (store w) = Ok false ->
  eval (votes p u) (store w) = Ok hs -> In x hs ->
  exists nv c,
    eval (num_votes p) (store w) = Ok (S nv)
    /\ eval (count_votes p x) (store w) = Ok (S c)
    /\ eval (num_votes p) (exec (vote p u x) (store w)) = Ok nv
    /\ eval (count_votes p x) (exec (vote p u x) (store w)) = Ok c
    /\ (forall y, y <> x ->
          eval (count_votes p y) (exec (vote p u x) (store w))
          = eval (count_votes p y) (store w))
    /\ (exists hs',
          eval (votes p u) (exec (vote p u x) (store w)) = Ok hs'
          /\ Permutation hs (x :: hs') /\ ~ In x hs').
Proof.
  intros Rw Hp Fin Hv Hx.
  destruct (reachable_live w p Rw Hp) as (t & St & W & Cur).
  rewrite St in *. apply is_finished_false in Fin as (t0 & E0 & Unf).
  injection E0 as <-.
  unfold eval in Hv. rewrite votes_Some in Hv. cbn [fst] in Hv.
  injection Hv as <-. fold (held p u t) in Hx.
  pose proof (held_valid p u x t W Cur Hx) as V.
  pose proof (proj1 (In_held p u x t) Hx) as Hr.
  destruct (select_votes_delete_vote (id p) u x t (wf_unique t W) Hr)
    as (E1 & E2 & E3).
  exists (length (select_votes (id p) (delete_vote (id p) u x t))),
         (length (select_votes_for (id p) x (delete_vote (id p) u x t))).
  unfold eval, exec.
  rewrite vote_Some, (vote_tables_unvote p u x t Unf V Hx). cbn [fst snd].
  split; [|split; [|split; [|split; [|split]]]].
  - unfold num_votes, bind, select, ret. cbn [fst]. now rewrite E1.
  - rewrite count_votes_Some, (binds_vote_valid p x V). cbn [fst].
    now rewrite E2.
  - reflexivity.
  - now rewrite count_votes_Some, (binds_vote_valid p x V).
  - intros y Ny. rewrite !count_votes_Some. cbn [fst]. now rewrite E3.
  - exists (held p u (delete_vote (id p) u x t)). split; [reflexivity|].
    rewrite held_delete_vote. split.
    + apply remove_option_perm; [apply NoDup_held, W | assumption].
    + apply not_In_filter_neq_option.
Qed.

Lemma unvote_removes_one_vote_witness :
  eval (num_votes lunch_poll) (exec (vote lunch_poll "bob" 1) (store w_bob12))
  = Ok 1%nat.
Proof.
  destruct (unvote_removes_one_vote w_bob12 lunch_poll "bob" 1 [1; 2]
              reachable_w_bob12 live_lunch eq_refl eq_refl
              (or_introl eq_refl)) as (nv & c & N & _ & N' & _).
  injection N as <-. exact N'.
Defined.

(** X12.  Voting twice for an option that was not held, with a vote left,
    is a round trip: both calls return and the database is back to what it
    was. *)
Theorem cast_then_unvote_restores (db : DB) (p : Poll) (u : string) (x : Z)
    (hs : list Z) :
  eval (is_finished p) db = Ok false ->
  valid_option p x ->
  eval (votes p u) db = Ok hs -> ~ In x hs ->
  Z.of_nat (length hs) < max_votes p ->
  vote_then_vote p u x x db = (Ok tt, db).
Proof.
  intros Fin V Hv Hx Room.
  apply is_finished_false in Fin as (t & -> & Unf).
  unfold eval in Hv. rewrite votes_Some in Hv. cbn [fst] in Hv.
  injection Hv as <-. fold (held p u t) in Hx, Room.
  assert (A : ~ In (Votes.mk (id p) u x) (tVotes t))
    by (now rewrite <- In_held).
  unfold vote_then_vote, bind.
  rewrite vote_Some, (vote_tables_insert p u x t Unf V Hx Room). cbn [fst snd].
  assert (Unf1 : unfinished p (insert_vote (id p) u x t))
    by (now apply (unfinished_frame p t)).
  assert (I1 : In x (held p u (insert_vote (id p) u x t))).
  { rewrite held_insert_vote. apply in_app_iff. right. now left. }
  rewrite vote_Some, (vote_tables_unvote p u x _ Unf1 V I1). cbn [fst snd].
  f_equal. f_equal. unfold delete_vote.
  rewrite (tVotes_insert_new _ _ _ _ A), filter_app, filter_neq_row_id
    by assumption.
  cbn [filter tPolls tVoteOptions insert_vote].
  rewrite (proj2 (Votes_eqb_eq _ _) eq_refl). cbn [negb].
  rewrite app_nil_r. now destruct t.
Qed.

Lemma cast_then_unvote_restores_witness :
  vote_then_vote lunch_poll "bob" 2 2 (store w_bob1) = (Ok tt, store w_bob1).
Proof.
  apply (cast_then_unvote_restores (store w_bob1) lunch_poll "bob" 2 [1]);
    [reflexivity | unfold valid_option; simpl; lia | reflexivity
     | simpl; intros [E|[]]; discriminate | simpl; lia].
Defined.

(** X13.  A voter can always swap a vote: on an unfinished poll in use,
    an unvote of a held option followed by a vote for a valid option that
    is not held returns twice, even when the voter had used all votes, and
    leaves the voter with the new option in place of the old one. *)
Theorem unvote_then_cast_swaps (w : World) (p : Poll) (u : string) (x y : Z)
    (hs : list Z) :
  reachable w -> In p (live w) ->
  eval (is_finished p) (store w) = Ok false ->
  eval (votes p u) (store w) = Ok hs ->
  In x hs -> valid_option p y -> ~ In y hs ->
  eval (vote_then_vote p u x y) (store w) = Ok tt
  /\ exists hs',
       eval (votes p u) (exec (vote_then_vote p u x y) (store w)) = Ok hs'
       /\ (forall z, In z hs' <-> z = y \/ (In z hs /\ z <> x))
       /\ length hs' = length hs.
Proof.
  intros Rw Hp Fin Hv Hx Vy Hy.
  destruct (reachable_live w p Rw Hp) as (t & St & W & Cur).
  pose proof (held_ceiling w p u t Rw Hp St) as C.
  rewrite St in *. apply is_finished_false in Fin as (t0 & E0 & Unf).
  injection E0 as <-.
  unfold eval in Hv. rewrite votes_Some in Hv. cbn [fst] in Hv.
  injection Hv as <-. fold (held p u t) in Hx, Hy.
  pose proof (held_valid p u x t W Cur Hx) as Vx.
  pose proof (remove_option_perm x (held p u t)
                (NoDup_held p u t (wf_unique t W)) Hx) as P.
  apply Permutation_length in P. cbn [length] in P.
  rewrite <- held_delete_vote in P.
  assert (H1 : held p u (delete_vote (id p) u x t)
               = filter (fun z => negb (z =? x)) (held p u t))
    by (apply held_delete_vote).
  remember (delete_vote (id p) u x t) as t1 eqn:Et1.
  assert (Unf1 : unfinished p t1)
    by (subst t1; now apply (unfinished_frame p t)).
  assert (Hy1 : ~ In y (held p u t1)).
  { rewrite H1, filter_In. tauto. }
  assert (Room : Z.of_nat (length (held p u t1)) < max_votes p) by lia.
  unfold eval, exec, vote_then_vote, bind.
  rewrite vote_Some, (vote_tables_unvote p u x t Unf Vx Hx). cbn [fst snd].
  rewrite <- Et1.
  rewrite vote_Some, (vote_tables_insert p u y t1 Unf1 Vy Hy1 Room).
  cbn [fst snd]. split; [reflexivity|].
  exists (held p u (insert_vote (id p) u y t1)). split; [reflexivity|].
  rewrite held_insert_vote, filter_neq_id by assumption. split.
  - intros z. rewrite H1, in_app_iff, filter_In, negb_true_iff, Z.eqb_neq.
    simpl. intuition auto.
  - rewrite length_app. cbn [length]. fold (held p u t). lia.
Qed.

Lemma unvote_then_cast_swaps_witness :
  eval (vote_then_vote lunch_poll "bob" 1 0) (store w_bob12) = Ok tt.
Proof.
  apply (unvote_then_cast_swaps w_bob12 lunch_poll "bob" 1 0 [1; 2]
           reachable_w_bob12 live_lunch eq_refl eq_refl (or_introl eq_refl)).
  - unfold valid_option. simpl. lia.
  - simpl. intros [E|[E|[]]]; discriminate.
Defined.

(** ** Voters and votes *)

Lemma NoDup_count_into u g :
  NoDup (map fst g) -> NoDup (map fst (count_into u g)).
Proof.
  induction g as [|[u' c] g IH]; simpl; intros ND.
  - constructor; [simpl; tauto | constructor].
  - destruct (String.eqb_spec u' u) as [->|N]; simpl; [exact ND|].
    apply NoDup_cons_iff in ND as [Hu ND]. constructor; [|auto].
    rewrite count_into_keys. intros [E|H]; [congruence | auto].
Qed.

Lemma NoDup_group_keys rows : NoDup (map fst (group_by_voter rows)).
Proof.
  induction rows as [|r rows IH]; simpl; [constructor|].
  now apply NoDup_count_into.
Qed.

Lemma voter_In_held p u t :
  In u (map Votes.voter (select_votes (id p) t)) <-> held p u t <> [].
Proof.
  unfold held. rewrite select_votes_of_voter, in_map_iff. split.
  - intros (r & E & Hr) N. apply map_eq_nil in N.
    assert (H : In r (filter (fun r => String.eqb (Votes.voter r) u)
                        (select_votes (id p) t)))
      by (apply filter_In; split; [assumption | now apply String.eqb_eq]).
    rewrite N in H. destruct H.
  - intros N.
    destruct (filter (fun r => String.eqb (Votes.voter r) u)
                (select_votes (id p) t)) as [|r l] eqn:F; [now destruct N|].
    assert (H : In r (r :: l)) by now left.
    rewrite <- F in H. apply filter_In in H as [H E].
    exists r. split; [now apply String.eqb_eq | assumption].
Qed.

(** X14.  [num_voters()] counts the voters who hold at least one vote in
    the poll, each once. *)
Theorem num_voters_counts_voters (db : DB) (p : Poll) (nr : nat) :
  eval (num_voters p) db = Ok nr ->
  exists us,
    NoDup us /\ length us = nr
    /\ forall u,
         In u us <-> exists hs, eval (votes p u) db = Ok hs /\ hs <> [].
Proof.
  unfold eval. destruct db as [t|]; [|discriminate].
  unfold num_voters, bind, select, ret. cbn [fst]. intros E.
  injection E as <-.
  exists (map fst (group_by_voter (select_votes (id p) t))).
  split; [apply NoDup_group_keys|]. split; [apply length_map|].
  intros u. rewrite group_keys, voter_In_held, votes_Some. cbn [fst].
  split.
  - intros N. exists (held p u t). split; [reflexivity | exact N].
  - intros (hs & E & N). injection E as <-. exact N.
Qed.

Lemma num_voters_counts_voters_witness :
  exists us,
    length us = 1%nat
    /\ forall u,
         In u us
         <-> exists hs,
               eval (votes lunch_poll u) (store w_bob12) = Ok hs /\ hs <> [].
Proof.
  destruct (num_voters_counts_voters (store w_bob12) lunch_poll 1 eq_refl)
    as (us & _ & L & H).
  exists us. split; [exact L | exact H].
Defined.

(** X15.  In a poll with [max_votes = 1] the number of voters is the number
    of votes, in every reachable state. *)
Theorem single_choice_voters_are_votes (w : World) (p : Poll) :
  reachable w -> In p (live w) -> max_votes p = 1 ->
  exists n,
    eval (num_votes p) (store w) = Ok n
    /\ eval (num_voters p) (store w) = Ok n.
Proof.
  intros Rw Hp One.
  destruct (reachable_live w p Rw Hp) as (t & St & W & Cur).
  exists (length (select_votes (id p) t)). rewrite St. unfold eval.
  split; [reflexivity|].
  unfold num_voters, bind, select, ret. cbn [fst]. f_equal.
  apply length_groups_eq, one_vote_each. intros u N.
  pose proof (held_ceiling w p u t Rw Hp St) as C.
  destruct (held p u t) as [|a l]; [congruence|]. simpl in *. lia.
Qed.

Lemma single_choice_voters_are_votes_witness :
  exists n,
    eval (num_votes yesno_poll) (store w_dave0) = Ok n
    /\ eval (num_voters yesno_poll) (store w_dave0) = Ok n.
Proof.
  exact (single_choice_voters_are_votes w_dave0 yesno_poll reachable_w_dave0
           live_yesno eq_refl).
Defined.

Lemma length_filter_partition {A} (f : A -> bool) (l : list A) :
  length l
  = (length (filter f l) + length (filter (fun x => negb (f x)) l))%nat.
Proof.
  induction l as [|x l IH]; simpl; [reflexivity|].
  destruct (f x); simpl; lia.
Qed.

Lemma length_rows_bound (m : nat) (ks : list string) :
  NoDup ks ->
  forall rows : list Votes.row,
    (forall r, In r rows -> In (Votes.voter r) ks) ->
    (forall k,
       length (filter (fun r => String.eqb (Votes.voter r) k) rows) <= m)%nat ->
    (length rows <= m * length ks)%nat.
Proof.
  induction ks as [|k ks IH]; intros ND rows Hin Hm.
  - destruct rows as [|r rows]; simpl; [lia|].
    destruct (Hin r (or_introl eq_refl)).
  - apply NoDup_cons_iff in ND as [Hk ND].
    rewrite (length_filter_partition
               (fun r => String.eqb (Votes.voter r) k) rows).
    pose proof (Hm k) as Mk.
    assert (L : (length (filter
                           (fun r => negb (String.eqb (Votes.voter r) k)) rows)
                 <= m * length ks)%nat).
    { apply IH; [assumption| |].
      - intros r Hr. apply filter_In in Hr as [Hr N].
        apply negb_true_iff, String.eqb_neq in N.
        destruct (Hin r Hr) as [E|H]; [congruence | exact H].
      - intros k'. etransitivity; [apply length_filter_filter | apply Hm]. }
    simpl length. lia.
Qed.

(** X16.  In a reachable state no option has more votes than the poll has
    voters, and the poll has at most [max_votes] votes per voter:
    [count_votes(i) <= num_voters()] for every option index [i] (and every
    64-bit integer), and [num_votes() <= max_votes * num_voters()]. *)
Theorem tallies_are_bounded (w : World) (p : Poll) :
  reachable w -> In p (live w) ->
  exists nv nr,
    eval (num_votes p) (store w) = Ok nv
    /\ eval (num_voters p) (store w) = Ok nr
    /\ Z.of_nat nv <= max_votes p * Z.of_nat nr
    /\ forall i, sqlite_int i = true \/ valid_option p i ->
         exists c,
           eval (count_votes p i) (store w) = Ok c /\ (c <= nr)%nat.
Proof.
  intros Rw Hp.
  destruct (reachable_live w p Rw Hp) as (t & St & W & Cur).
  pose proof (live_max_votes w p Rw Hp) as M1.
  exists (length (select_votes (id p) t)),
         (length (group_by_voter (select_votes (id p) t))).
  rewrite St. unfold eval. split; [reflexivity|]. split; [reflexivity|].
  rewrite <- (length_map fst (group_by_voter _)). split.
  - assert (B : (length (select_votes (id p) t)
                 <= Z.to_nat (max_votes p)
                    * length (map fst (group_by_voter
                                         (select_votes (id p) t))))%nat).
    { apply length_rows_bound; [apply NoDup_group_keys| |].
      - intros r Hr. apply group_keys. now apply in_map.
      - intros k. rewrite <- select_votes_of_voter.
        pose proof (held_ceiling w p k t Rw Hp St) as C.
        unfold held in C. rewrite length_map in C. lia. }
    nia.
  - intros i B. exists (length (select_votes_for (id p) i t)).
    assert (Hb : binds_vote p i = true)
      by (destruct B; [now apply binds_vote_sqlite_int
                      | now apply binds_vote_valid]).
    split; [now rewrite count_votes_Some, Hb|].
    rewrite <- (length_map Votes.voter (select_votes_for (id p) i t)).
    apply NoDup_incl_length; [apply NoDup_voters, W|].
    intros u Hu. apply group_keys.
    rewrite select_votes_for_votes in Hu.
    apply in_map_iff in Hu as (r & E & Hr). apply filter_In in Hr as [Hr _].
    rewrite <- E. now apply in_map.
Qed.

Lemma tallies_are_bounded_witness :
  exists nv nr,
    eval (num_votes lunch_poll) (store w_bob12) = Ok nv
    /\ eval (num_voters lunch_poll) (store w_bob12) = Ok nr
    /\ Z.of_nat nv <= 2 * Z.of_nat nr.
Proof.
  destruct (tallies_are_bounded w_bob12 lunch_poll reachable_w_bob12
              live_lunch) as (nv & nr & E1 & E2 & B & _).
  exists nv, nr. auto.
Defined.

Lemma group_length_ext (rows rows' : list Votes.row) :
  (forall k, In k (map Votes.voter rows) <-> In k (map Votes.voter rows')) ->
  length (group_by_voter rows) = length (group_by_voter rows').
Proof.
  intros H.
  rewrite <- (length_map fst (group_by_voter rows)),
    <- (length_map fst (group_by_voter rows')).
  apply Permutation_length, NoDup_Permutation; try apply NoDup_group_keys.
  intros k. now rewrite !group_keys.
Qed.

Lemma delete_votes_of_single i u y t :
  map Votes.vote (select_votes_of i u t) = [y] ->
  delete_votes_of i u t = delete_vote i u y t.
Proof.
  intros H. unfold delete_votes_of, delete_vote. f_equal.
  apply filter_ext_in. intros r Hr. f_equal.
  destruct ((Votes.poll_id r =? i) && String.eqb (Votes.voter r) u) eqn:G.
  - symmetry. apply Votes_eqb_eq.
    assert (Hs : In r (select_votes_of i u t))
      by (apply filter_In; auto).
    destruct (select_votes_of i u t) as [|r0 [|r1 l]]; try discriminate.
    destruct Hs as [->|[]]. injection H as Hy.
    apply andb_true_iff in G as [G1 G2].
    apply Z.eqb_eq in G1. apply String.eqb_eq in G2.
    destruct r; simpl in *. congruence.
  - symmetry. apply Votes_eqb_neq. intros ->. simpl in G.
    now rewrite Z.eqb_refl, String.eqb_refl in G.
Qed.

(** X17.  Changing a vote in a single-choice poll moves one vote: when the
    voter holds [y] and votes for another valid option [x], the call
    returns, [count_votes(y)] drops by one, [count_votes(x)] grows by one,
    every other count and [num_votes()] and [num_voters()] stay the
    same. *)
Theorem single_choice_change_moves_vote (w : World) (p : Poll) (u : string)
    (x y : Z) :
  reachable w -> In p (live w) -> max_votes p = 1 ->
  eval (is_finished p) (store w) = Ok false ->
  eval (votes p u) (store w) = Ok [y] ->
  valid_option p x -> x <> y ->
  exists nv nr cx cy,
    eval (vote p u x) (store w) = Ok tt
    /\ eval (num_votes p) (store w) = Ok nv
    /\ eval (num_votes p) (exec (vote p u x) (store w)) = Ok nv
    /\ eval (num_voters p) (store w) = Ok nr
    /\ eval (num_voters p) (exec (vote p u x) (store w)) = Ok nr
    /\ eval (count_votes p x) (store w) = Ok cx
    /\ eval (count_votes p x) (exec (vote p u x) (store w)) = Ok (S cx)
    /\ eval (count_votes p y) (store w) = Ok (S cy)
    /\ eval (count_votes p y) (exec (vote p u x) (store w)) = Ok cy
    /\ forall z, z <> x -> z <> y ->
         eval (count_votes p z) (exec (vote p u x) (store w))
         = eval (count_votes p z) (store w).
Proof.
  intros Rw Hp One Fin Hv V Nxy.
  destruct (reachable_live w p Rw Hp) as (t & St & W & Cur).
  rewrite St in *. apply is_finished_false in Fin as (t0 & E0 & Unf).
  injection E0 as <-.
  unfold eval in Hv. rewrite votes_Some in Hv. cbn [fst] in Hv.
  injection Hv as Hh. fold (held p u t) in Hh.
  assert (Hx : ~ In x (held p u t))
    by (rewrite Hh; simpl; intros [E|[]]; congruence).
  assert (Full : max_votes p <= Z.of_nat (length (held p u t)))
    by (rewrite Hh; simpl; lia).
  pose proof (vote_tables_replace p u x t Unf V Hx Full One) as E.
  pose proof (delete_votes_of_single (id p) u y t Hh) as D.
  assert (Ry : In (Votes.mk (id p) u y) (tVotes t))
    by (apply In_held; rewrite Hh; now left).
  destruct (select_votes_delete_vote (id p) u y t (wf_unique t W) Ry)
    as (E1 & E2 & E3).
  rewrite <- D in E1, E2, E3.
  set (t1 := delete_votes_of (id p) u t) in *.
  assert (A : ~ In (Votes.mk (id p) u x) (tVotes t1)).
  { intros H. apply filter_In in H as [H _]. now apply In_held in H. }
  pose proof (tVotes_insert_new (id p) u x t1 A) as I.
  assert (S1 : select_votes (id p) (insert_vote (id p) u x t1)
               = select_votes (id p) t1 ++ [Votes.mk (id p) u x]).
  { unfold select_votes. rewrite I, filter_app. simpl.
    now rewrite Z.eqb_refl. }
  assert (S2 : forall z,
             select_votes_for (id p) z (insert_vote (id p) u x t1)
             = select_votes_for (id p) z t1
               ++ (if x =? z then [Votes.mk (id p) u x] else [])).
  { intros z. unfold select_votes_for. rewrite I, filter_app. simpl.
    rewrite Z.eqb_refl. simpl. now destruct (x =? z). }
  exists (length (select_votes (id p) t)),
         (length (group_by_voter (select_votes (id p) t))),
         (length (select_votes_for (id p) x t)),
         (length (select_votes_for (id p) y t1)).
  assert (Vy : valid_option p y)
    by (apply (held_valid p u y t W Cur); rewrite Hh; now left).
  unfold eval, exec. rewrite vote_Some, E. cbn [fst snd].
  rewrite !count_votes_Some, (binds_vote_valid p x V),
    (binds_vote_valid p y Vy). cbn [fst].
  unfold num_votes, num_voters, bind, select, ret. cbn [fst].
  split; [reflexivity|]. split; [reflexivity|]. split.
  { rewrite S1, length_app, E1. simpl. f_equal. lia. }
  split; [reflexivity|]. split.
  { f_equal. apply group_length_ext. intros k.
    change (In k (map Votes.voter
                    (select_votes (id p) (insert_vote (id p) u x t1)))
            <-> In k (map Votes.voter (select_votes (id p) t))).
    rewrite !voter_In_held.
    destruct (string_dec k u) as [->|Nk].
    - rewrite held_insert_vote. unfold t1.
      rewrite held_delete_votes_of, Hh. simpl. split; discriminate.
    - unfold held. replace (insert_vote (id p) u x t1)
        with (snd (vote_tables p u x t)) by (now rewrite E).
      rewrite select_votes_of_other by (right; exact Nk). reflexivity. }
  split; [reflexivity|]. split.
  { rewrite S2, Z.eqb_refl, length_app, (E3 x Nxy). simpl. f_equal. lia. }
  split; [now rewrite E2|]. split.
  { rewrite S2, (proj2 (Z.eqb_neq x y) Nxy), app_nil_r. reflexivity. }
  intros z Nzx Nzy. rewrite !count_votes_Some. cbn [fst].
  rewrite S2, (proj2 (Z.eqb_neq x z)) by congruence.
  now rewrite app_nil_r, (E3 z Nzy).
Qed.

Lemma single_choice_change_moves_vote_witness :
  eval (num_votes yesno_poll) (exec (vote yesno_poll "dave" 1) (store w_dave0))
  = eval (num_votes yesno_poll) (store w_dave0).
Proof.
  destruct (single_choice_change_moves_vote w_dave0 yesno_poll "dave" 1 0
              reachable_w_dave0 live_yesno eq_refl eq_refl eq_refl)
    as (nv & nr & cx & cy & _ & N & N' & _).
  - unfold valid_option. simpl. lia.
  - discriminate.
  - now rewrite N, N'.
Defined.

(** ** What [end] leaves alone *)

(** X18.  [end] changes only the finished flag of its own poll: no vote is
    removed or added, every tally of every poll is unchanged, every poll
    keeps its attributes, and no other poll becomes finished. *)
Theorem end_changes_only_its_flag (db : DB) (p q : Poll) :
  eval (num_votes q) (exec (end_ p) db) = eval (num_votes q) db
  /\ eval (num_voters q) (exec (end_ p) db) = eval (num_voters q) db
  /\ (forall u,
        eval (votes q u) (exec (end_ p) db) = eval (votes q u) db)
  /\ (forall i,
        eval (count_votes q i) (exec (end_ p) db) = eval (count_votes q i) db
        /\ eval (voters q i) (exec (end_ p) db) = eval (voters q i) db)
  /\ (forall i, eval (load i) (exec (end_ p) db) = eval (load i) db)
  /\ (id q <> id p ->
      eval (is_finished q) (exec (end_ p) db) = eval (is_finished q) db).
Proof.
  unfold eval, exec. destruct db as [t|]; [|repeat split; reflexivity].
  rewrite end_Some. cbn [snd].
  split; [reflexivity|]. split; [reflexivity|]. split; [reflexivity|].
  split; [intros i; rewrite !count_votes_Some, !voters_Some;
          split; reflexivity|].
  split.
  - intros i. unfold load. rewrite !init_Some. cbn [fst].
    apply init_tables_update.
  - intros N. rewrite !is_finished_Some. cbn [fst].
    rewrite select_poll_update, (proj2 (Z.eqb_neq _ _) N).
    now destruct (select_poll (id q) t).
Qed.

Lemma end_changes_only_its_flag_witness :
  eval (is_finished yesno2_poll) (exec (end_ lunch_poll) (store w_two))
  = Ok false.
Proof.
  destruct (end_changes_only_its_flag (store w_two) lunch_poll yesno2_poll)
    as (_ & _ & _ & _ & _ & H).
  rewrite H; [reflexivity | discriminate].
Defined.

(** ** Votes per voter *)

Lemma length_rows_sum (ks : list string) :
  NoDup ks ->
  forall rows : list Votes.row,
    (forall r, In r rows -> In (Votes.voter r) ks) ->
    length rows
    = list_sum
        (map (fun k =>
                length (filter (fun r => String.eqb (Votes.voter r) k) rows))
           ks).
Proof.
  induction ks as [|k ks IH]; intros ND rows Hin.
  - destruct rows as [|r rows]; [reflexivity|].
    destruct (Hin r (or_introl eq_refl)).
  - apply NoDup_cons_iff in ND as [Hk ND].
    unfold list_sum. cbn [map fold_right]. fold (list_sum
      (map (fun k0 => length (filter
                                (fun r => String.eqb (Votes.voter r) k0) rows))
         ks)).
    rewrite (length_filter_partition
               (fun r => String.eqb (Votes.voter r) k) rows) at 1.
    f_equal.
    rewrite (IH ND
               (filter (fun r => negb (String.eqb (Votes.voter r) k)) rows)).
    + f_equal. apply map_ext_in. intros k' Hk'. f_equal.
      apply filter_filter_kept. intros r _ E.
      apply negb_false_iff, String.eqb_eq in E.
      apply String.eqb_neq. intros E'. apply Hk. congruence.
    + intros r Hr. apply filter_In in Hr as [Hr N].
      apply negb_true_iff, String.eqb_neq in N.
      destruct (Hin r Hr) as [E|H]; [congruence | exact H].
Qed.

Lemma votes_held_Some p u t :
  votes_held p u (Some t)
  = length (filter (fun r => String.eqb (Votes.voter r) u)
              (select_votes (id p) t)).
Proof.
  unfold votes_held, eval. rewrite votes_Some. cbn [fst].
  now rewrite length_map, select_votes_of_voter.
Qed.

(** X19.  [num_votes()] is the sum, over the voters who hold a vote in the
    poll, of the number of options each of them holds. *)
Theorem num_votes_sums_over_voters (db : DB) (p : Poll) (nv : nat) :
  eval (num_votes p) db = Ok nv ->
  exists us,
    NoDup us
    /\ (forall u, In u us <-> (0 < votes_held p u db)%nat)
    /\ nv = list_sum (map (fun u => votes_held p u db) us).
Proof.
  unfold eval. destruct db as [t|]; [|discriminate].
  unfold num_votes, bind, select, ret. cbn [fst]. intros E.
  injection E as <-.
  exists (map fst (group_by_voter (select_votes (id p) t))).
  split; [apply NoDup_group_keys|]. split.
  - intros u. rewrite group_keys, voter_In_held.
    unfold votes_held, eval. rewrite votes_Some. cbn [fst].
    fold (held p u t). destruct (held p u t); simpl; split;
      try congruence; lia.
  - rewrite (length_rows_sum _ (NoDup_group_keys (select_votes (id p) t))
               (select_votes (id p) t)).
    + apply f_equal, map_ext. intros u. now rewrite votes_held_Some.
    + intros r Hr. apply group_keys. now apply in_map.
Qed.

Lemma num_votes_sums_over_voters_witness :
  exists us,
    NoDup us
    /\ 2%nat = list_sum (map (fun u => votes_held lunch_poll u (store w_bob12))
                           us).
Proof.
  destruct (num_votes_sums_over_voters (store w_bob12) lunch_poll 2 eq_refl)
    as (us & ND & _ & S).
  exists us. split; [exact ND | exact S].
Defined.
